(** * webbshop.py: a shallow embedding of the inventory manager

    The development follows src/webbshop.py: the [Product] record, the
    [Inventory] methods, the persistence through the [csv] module and the
    session loop of [main].

    Conventions of the model.
    - A Python [int] is a [Z]; a Python [str] is a [string] whose characters
      are the code points below 256.
    - A Python [float] is kept behind the interface [PyFloat]: the program
      only converts prices from and to text, so the model is parametric in
      the carrier and in the two conversions.
    - A method that mutates [self.products] is a function from the product
      list to an outcome and the product list it leaves behind.  That is
      the program on lists that hold every [Product] object once, as the
      lists of [main] do: [load_data] and the add branch append objects
      that come fresh out of the constructor.
    - A caller of [add_product] can put one object at several places of
      the list.  [Module Objects] gives the methods that assign to
      attributes, [remove_product] and [update_product], on a list of
      references into a store of objects; they agree with the functions
      on product lists when the list holds every object once
      ([contents_remove_product], [contents_update_product]).
    - The [csv] module is the one of CPython 3.11.  Resource limits of the
      interpreter (memory, [csv.field_size_limit], the digit limit of the
      [int]/[str] conversions) are not modelled. *)

From Stdlib Require Import ZArith List String Ascii Bool Lia Permutation.
From Stdlib Require Import DecimalString DecimalPos DecimalZ.
Import ListNotations.

Local Open Scope string_scope.
Local Open Scope list_scope.
Local Open Scope Z_scope.

(** ** Exceptions and outcomes *)

Inductive exn : Type :=
| ValueError
| TypeError
| KeyError
| EOFError
| CsvError.

Inductive res (A : Type) : Type :=
| Ok (a : A)
| Raise (e : exn).

Arguments Ok {A} a.
Arguments Raise {A} e.

Definition bind {A B : Type} (r : res A) (k : A -> res B) : res B :=
  match r with
  | Ok a => k a
  | Raise e => Raise e
  end.

Notation "x <- r ;; k" := (bind r (fun x => k))
  (at level 61, r at next level, right associativity).

(** ** Characters and the conversions [int(s)], [str(n)], [s.lower()] *)

Definition chr (n : nat) : ascii := ascii_of_nat n.

Definition ch_comma : ascii := chr 44.
Definition ch_quote : ascii := chr 34.
Definition ch_cr : ascii := chr 13.
Definition ch_lf : ascii := chr 10.
Definition ch_underscore : ascii := chr 95.
Definition ch_plus : ascii := chr 43.
Definition ch_minus : ascii := chr 45.

(** The characters [int()] skips around a literal: the C [isspace] set for
    the ASCII range, and U+0085 and U+00A0 above it. *)
Definition is_space (c : ascii) : bool :=
  let n := nat_of_ascii c in
  ((9 <=? n) && (n <=? 13) || (n =? 32) || (n =? 133) || (n =? 160))%nat.

Definition digit_of (c : ascii) : option Z :=
  let n := nat_of_ascii c in
  if ((48 <=? n) && (n <=? 57))%nat then Some (Z.of_nat n - 48) else None.

Fixpoint lstrip (s : string) : string :=
  match s with
  | String c s' => if is_space c then lstrip s' else s
  | EmptyString => EmptyString
  end.

Fixpoint all_space (s : string) : bool :=
  match s with
  | String c s' => is_space c && all_space s'
  | EmptyString => true
  end.

(** The digits of a literal after its first digit: a single underscore is
    allowed between two digits; the scan stops at the first other
    character and returns what is left. *)
Fixpoint int_digits (acc : Z) (s : string) : option (Z * string) :=
  match s with
  | EmptyString => Some (acc, EmptyString)
  | String c s' =>
      match digit_of c with
      | Some d => int_digits (10 * acc + d) s'
      | None =>
          if Ascii.eqb c ch_underscore then
            match s' with
            | String c' s'' =>
                match digit_of c' with
                | Some d => int_digits (10 * acc + d) s''
                | None => None
                end
            | EmptyString => None
            end
          else Some (acc, s)
      end
  end.

Definition int_literal (s : string) : option (Z * string) :=
  match s with
  | String c s' =>
      match digit_of c with
      | Some d => int_digits d s'
      | None => None
      end
  | EmptyString => None
  end.

Definition int_signed (s : string) : option (Z * string) :=
  match s with
  | String c s' =>
      if Ascii.eqb c ch_plus then int_literal s'
      else if Ascii.eqb c ch_minus then
        match int_literal s' with
        | Some (n, r) => Some (- n, r)
        | None => None
        end
      else int_literal s
  | EmptyString => None
  end.

(** [int(s)] in base 10; [None] stands for the [ValueError] it raises. *)
Definition int_of_str (s : string) : option Z :=
  match int_signed (lstrip s) with
  | Some (n, r) => if all_space r then Some n else None
  | None => None
  end.

(** [str(n)] for an [int]. *)
Definition str_of_int (n : Z) : string :=
  NilZero.string_of_int (Z.to_int n).

Definition lower_char (c : ascii) : ascii :=
  let n := nat_of_ascii c in
  if ((65 <=? n) && (n <=? 90)
      || (192 <=? n) && (n <=? 222) && negb (n =? 215))%nat
  then chr (n + 32) else c.

Fixpoint lower (s : string) : string :=
  match s with
  | String c s' => String (lower_char c) (lower s')
  | EmptyString => EmptyString
  end.

(** ** The [csv] module, dialect "excel"

    Delimiter comma, quote character the double quote, [doublequote] on, no escape
    character, [skipinitialspace] off, line terminator CR LF,
    [QUOTE_MINIMAL], [strict] off.  The states and transitions are those
    of the reader and writer of [_csv.c] that this dialect can reach. *)

Module csv.

(** *** writer *)

(** Whether the scan of a field meets a character that forces quoting:
    the delimiter, the quote character, or a character of the line
    terminator. *)
Fixpoint quoted (s : string) : bool :=
  match s with
  | EmptyString => false
  | String c s' =>
      Ascii.eqb c ch_comma || Ascii.eqb c ch_quote
      || Ascii.eqb c ch_cr || Ascii.eqb c ch_lf || quoted s'
  end.

(** The characters the scan copies: a quote character is written twice. *)
Fixpoint field_data (s : string) : string :=
  match s with
  | EmptyString => EmptyString
  | String c s' =>
      if Ascii.eqb c ch_quote
      then String ch_quote (String ch_quote (field_data s'))
      else String c (field_data s')
  end.

Definition join_append (s : string) : string :=
  if quoted s
  then String ch_quote (field_data s ++ String ch_quote EmptyString)
  else s.

Fixpoint join_fields (fields : list string) : string :=
  match fields with
  | [] => EmptyString
  | [f] => join_append f
  | f :: fs => join_append f ++ String ch_comma (join_fields fs)
  end.

Definition lineterminator : string :=
  String ch_cr (String ch_lf EmptyString).

(** [writer.writerow]: the text written for one row.  A row made of one
    empty field is written as a pair of quotes. *)
Definition writerow (fields : list string) : string :=
  let rec := join_fields fields in
  match fields, rec with
  | _ :: _, EmptyString =>
      String ch_quote (String ch_quote EmptyString) ++ lineterminator
  | _, _ => rec ++ lineterminator
  end.

(** *** reader *)

Inductive ParserState : Type :=
| START_RECORD
| START_FIELD
| IN_FIELD
| IN_QUOTED_FIELD
| QUOTE_IN_QUOTED_FIELD
| EAT_CRNL.

Definition state_eqb (a b : ParserState) : bool :=
  match a, b with
  | START_RECORD, START_RECORD
  | START_FIELD, START_FIELD
  | IN_FIELD, IN_FIELD
  | IN_QUOTED_FIELD, IN_QUOTED_FIELD
  | QUOTE_IN_QUOTED_FIELD, QUOTE_IN_QUOTED_FIELD
  | EAT_CRNL, EAT_CRNL => true
  | _, _ => false
  end.

(** The part of [ReaderObj] the parser works on: the state, the fields of
    the record read so far, the characters of the field being read. *)
Record Reader : Type := mkReader {
  state : ParserState;
  fields : list string;
  field : string
}.

Definition parse_reset : Reader := mkReader START_RECORD [] EmptyString.

Definition set_state (st : ParserState) (r : Reader) : Reader :=
  mkReader st (fields r) (field r).

Definition parse_save_field (r : Reader) : Reader :=
  mkReader (state r) (fields r ++ [field r]) EmptyString.

Definition parse_add_char (c : ascii) (r : Reader) : Reader :=
  mkReader (state r) (fields r) (field r ++ String c EmptyString).

Definition is_newline (c : ascii) : bool :=
  Ascii.eqb c ch_lf || Ascii.eqb c ch_cr.

(** The case [START_FIELD] of [parse_process_char], which the case
    [START_RECORD] falls through to. *)
Definition process_start_field (r : Reader) (c : option ascii) : Reader :=
  match c with
  | None => set_state START_RECORD (parse_save_field r)
  | Some ch =>
      if is_newline ch then set_state EAT_CRNL (parse_save_field r)
      else if Ascii.eqb ch ch_quote then set_state IN_QUOTED_FIELD r
      else if Ascii.eqb ch ch_comma then parse_save_field r
      else set_state IN_FIELD (parse_add_char ch r)
  end.

(** [parse_process_char]: one character of the line, or [None] for the
    end-of-line mark that follows the last one. *)
Definition parse_process_char (r : Reader) (c : option ascii) : res Reader :=
  match state r with
  | START_RECORD =>
      match c with
      | None => Ok r
      | Some ch =>
          if is_newline ch then Ok (set_state EAT_CRNL r)
          else Ok (process_start_field (set_state START_FIELD r) c)
      end
  | START_FIELD => Ok (process_start_field r c)
  | IN_FIELD =>
      match c with
      | None => Ok (set_state START_RECORD (parse_save_field r))
      | Some ch =>
          if is_newline ch then Ok (set_state EAT_CRNL (parse_save_field r))
          else if Ascii.eqb ch ch_comma
          then Ok (set_state START_FIELD (parse_save_field r))
          else Ok (parse_add_char ch r)
      end
  | IN_QUOTED_FIELD =>
      match c with
      | None => Ok r
      | Some ch =>
          if Ascii.eqb ch ch_quote then Ok (set_state QUOTE_IN_QUOTED_FIELD r)
          else Ok (parse_add_char ch r)
      end
  | QUOTE_IN_QUOTED_FIELD =>
      match c with
      | None => Ok (set_state START_RECORD (parse_save_field r))
      | Some ch =>
          if Ascii.eqb ch ch_quote
          then Ok (set_state IN_QUOTED_FIELD (parse_add_char ch r))
          else if Ascii.eqb ch ch_comma
          then Ok (set_state START_FIELD (parse_save_field r))
          else if is_newline ch
          then Ok (set_state EAT_CRNL (parse_save_field r))
          else Ok (set_state IN_FIELD (parse_add_char ch r))
      end
  | EAT_CRNL =>
      match c with
      | None => Ok (set_state START_RECORD r)
      | Some ch => if is_newline ch then Ok r else Raise CsvError
      end
  end.

(** The inner loop of [Reader_iternext] over the characters of a line. *)
Fixpoint process_line (r : Reader) (line : string) : res Reader :=
  match line with
  | EmptyString => Ok r
  | String c line' =>
      r' <- parse_process_char r (Some c) ;; process_line r' line'
  end.

(** The rows that successive calls of [Reader_iternext] return over the
    lines left, with the parser in state [r] for the record in progress,
    and the error that ends the iteration when one is raised.  A record
    goes on with the next line while the state is not [START_RECORD]; at
    the end of the lines an open record is returned if a field or a
    quoted field is in progress. *)
Fixpoint rows_from (r : Reader) (lines : list string)
  : list (list string) * option exn :=
  match lines with
  | [] =>
      if negb (String.eqb (field r) EmptyString)
         || state_eqb (state r) IN_QUOTED_FIELD
      then ([fields (parse_save_field r)], None)
      else ([], None)
  | line :: lines' =>
      match (r1 <- process_line r line ;; parse_process_char r1 None) with
      | Raise e => ([], Some e)
      | Ok r2 =>
          if state_eqb (state r2) START_RECORD
          then let (rows, e) := rows_from parse_reset lines' in
               (fields r2 :: rows, e)
          else rows_from r2 lines'
      end
  end.

Definition reader (lines : list string) : list (list string) * option exn :=
  rows_from parse_reset lines.

(** *** DictReader *)

(** A row as [DictReader] returns it: the keys are the field names, a
    value is a field or the [restval] [None].  The latest binding of a key
    is the first of the list.  The entry under the [restkey] [None], which
    holds the fields in excess, has no [str] key and is left out. *)
Definition dict : Type := list (string * option string).

Fixpoint getitem (d : dict) (key : string) : res (option string) :=
  match d with
  | [] => Raise KeyError
  | (k, v) :: d' => if String.eqb k key then Ok v else getitem d' key
  end.

(** [dict(zip(fieldnames, row))], then [restval] for the names beyond the
    row. *)
Fixpoint zip_row (d : dict) (fieldnames row : list string) : dict :=
  match fieldnames, row with
  | k :: ks, v :: vs => zip_row ((k, Some v) :: d) ks vs
  | k :: ks, [] => zip_row ((k, None) :: d) ks []
  | [], _ => d
  end.

Definition is_blank (row : list string) : bool :=
  match row with
  | [] => true
  | _ :: _ => false
  end.

(** The rows of [DictReader]: the first row of the reader gives the field
    names, the rows equal to [[]] are skipped. *)
Definition DictReader (lines : list string) : list dict * option exn :=
  match reader lines with
  | ([], e) => ([], e)
  | (fieldnames :: rows, e) =>
      (map (zip_row [] fieldnames) (filter (fun r => negb (is_blank r)) rows), e)
  end.

End csv.

(** ** Text files *)

(** Reading in text mode with the default [newline=None]: CR LF and a lone
    CR both come out as LF. *)
Fixpoint universal_newlines (s : string) : string :=
  match s with
  | EmptyString => EmptyString
  | String c s' =>
      if Ascii.eqb c ch_cr then
        String ch_lf
          match s' with
          | String c' s'' =>
              if Ascii.eqb c' ch_lf then universal_newlines s''
              else universal_newlines s'
          | EmptyString => EmptyString
          end
      else String c (universal_newlines s')
  end.

(** The lines an open file iterates over: each ends with its LF, but
    possibly the last one. *)
Fixpoint lines_of (s : string) : list string :=
  match s with
  | EmptyString => []
  | String c s' =>
      if Ascii.eqb c ch_lf then String c EmptyString :: lines_of s'
      else match lines_of s' with
           | [] => [String c EmptyString]
           | l :: ls => String c l :: ls
           end
  end.

(** The files: the text stored under a path, if the path exists.  Text is
    stored as written with [newline=''], without translation. *)
Definition files : Type := string -> option string.

Definition write_file (path text : string) (fs : files) : files :=
  fun p => if String.eqb p path then Some text else fs p.

(** ** Floats *)

(** What the program uses of [float]: [float(s)], with [None] for the
    [ValueError] it raises, and [str(x)]. *)
Class PyFloat : Type := {
  pyfloat : Type;
  float_of_str : string -> option pyfloat;
  str_of_float : pyfloat -> string
}.

(** ** Product and Inventory *)

Section Shop.

Context {F : PyFloat}.

(** [class Product]: the five attributes set by [__init__].  [id] and
    [quantity] always come out of [int(...)] or [get_next_id] and [price]
    out of [float(...)]; [name] and [desc] are stored as they are received,
    a [str], or [None] when [load_data] takes them from a row that
    [csv.DictReader] had to fill. *)
Record Product : Type := mkProduct {
  id : Z;
  name : option string;
  desc : option string;
  price : pyfloat;
  quantity : Z
}.

Definition set_id (v : Z) (p : Product) : Product :=
  mkProduct v (name p) (desc p) (price p) (quantity p).
Definition set_name (v : option string) (p : Product) : Product :=
  mkProduct (id p) v (desc p) (price p) (quantity p).
Definition set_desc (v : option string) (p : Product) : Product :=
  mkProduct (id p) (name p) v (price p) (quantity p).
Definition set_price (v : pyfloat) (p : Product) : Product :=
  mkProduct (id p) (name p) (desc p) v (quantity p).
Definition set_quantity (v : Z) (p : Product) : Product :=
  mkProduct (id p) (name p) (desc p) (price p) v.

(** [class Inventory]: the list [self.products]. *)
Definition Inventory : Type := list Product.

Definition ids (inv : Inventory) : list Z := map id inv.

(** [get_next_id]: [1] on the empty list, else [max(...) + 1], the maximum
    being the left-to-right scan of the builtin [max]. *)
Definition get_next_id (inv : Inventory) : Z :=
  match inv with
  | [] => 1
  | p :: ps => fold_left Z.max (ids ps) (id p) + 1
  end.

(** [get_product_by_id]: the first product of the list with that id. *)
Fixpoint get_product_by_id (inv : Inventory) (product_id : Z) : option Product :=
  match inv with
  | [] => None
  | p :: ps => if id p =? product_id then Some p else get_product_by_id ps product_id
  end.

(** The loop [for i, product in enumerate(...): product.id = i + 1], from
    index [i] on, over a list that holds every object once: each place
    gets its number.  [Objects.reassign_ids] is the loop over a list of
    references. *)
Fixpoint reassign_ids (i : Z) (ps : list Product) : list Product :=
  match ps with
  | [] => []
  | p :: ps' => set_id (i + 1) p :: reassign_ids (i + 1) ps'
  end.

(** [remove_product]: the list comprehension, then the renumbering. *)
Definition remove_product (product_id : Z) (inv : Inventory) : Inventory :=
  reassign_ids 0 (filter (fun p => negb (id p =? product_id)) inv).

(** Assignment to an attribute of the object [get_product_by_id] returned:
    the object is the first one of the list with that id, and the list
    holds it by reference, here at that one place.  [Objects.setattr] is
    the assignment when the list may hold the object at other places
    too. *)
Fixpoint assign (product_id : Z) (f : Product -> Product) (inv : Inventory)
  : Inventory :=
  match inv with
  | [] => []
  | p :: ps =>
      if id p =? product_id then f p :: ps else p :: assign product_id f ps
  end.

(** [update_product]: the outcome and the list it leaves.  The right-hand
    sides [float(new_value)] and [int(new_value)] are evaluated before the
    attribute is assigned. *)
Definition update_product (product_id : Z) (field new_value : string)
    (inv : Inventory) : res unit * Inventory :=
  match get_product_by_id inv product_id with
  | Some _ =>
      if String.eqb field "name" then
        (Ok tt, assign product_id (set_name (Some new_value)) inv)
      else if String.eqb field "desc" then
        (Ok tt, assign product_id (set_desc (Some new_value)) inv)
      else if String.eqb field "price" then
        match float_of_str new_value with
        | Some x => (Ok tt, assign product_id (set_price x) inv)
        | None => (Raise ValueError, inv)
        end
      else if String.eqb field "quantity" then
        match int_of_str new_value with
        | Some n => (Ok tt, assign product_id (set_quantity n) inv)
        | None => (Raise ValueError, inv)
        end
      else (Ok tt, inv)
  | None => (Ok tt, inv)
  end.

(** [add_product]: [append]. *)
Definition add_product (product : Product) (inv : Inventory) : Inventory :=
  inv ++ [product].


(** *** Persistence *)

(** [int(v)] and [float(v)] on a value taken from a row: [None] is a
    [TypeError], a text that is no literal a [ValueError]. *)
Definition py_int (v : option string) : res Z :=
  match v with
  | None => Raise TypeError
  | Some s =>
      match int_of_str s with
      | Some n => Ok n
      | None => Raise ValueError
      end
  end.

Definition py_float (v : option string) : res pyfloat :=
  match v with
  | None => Raise TypeError
  | Some s =>
      match float_of_str s with
      | Some x => Ok x
      | None => Raise ValueError
      end
  end.

(** The [Product(...)] call of [load_data]; the arguments are evaluated
    from left to right. *)
Definition row_product (row : csv.dict) : res Product :=
  v_id <- csv.getitem row "id" ;;
  product_id <- py_int v_id ;;
  v_name <- csv.getitem row "name" ;;
  v_desc <- csv.getitem row "desc" ;;
  v_price <- csv.getitem row "price" ;;
  x <- py_float v_price ;;
  v_quantity <- csv.getitem row "quantity" ;;
  n <- py_int v_quantity ;;
  Ok (mkProduct product_id v_name v_desc x n).

(** The [for row in reader] loop: the products of the rows before the
    first failing one are appended. *)
Fixpoint load_rows (rows : list csv.dict) (inv : Inventory)
  : res unit * Inventory :=
  match rows with
  | [] => (Ok tt, inv)
  | row :: rows' =>
      match row_product row with
      | Ok p => load_rows rows' (inv ++ [p])
      | Raise e => (Raise e, inv)
      end
  end.

(** [load_data]: nothing when the path does not exist; an error of the
    reader is raised once the rows read before it are consumed. *)
Definition load_data (fs : files) (filename : string) (inv : Inventory)
  : res unit * Inventory :=
  match fs filename with
  | None => (Ok tt, inv)
  | Some text =>
      let (rows, err) := csv.DictReader (lines_of (universal_newlines text)) in
      match load_rows rows inv, err with
      | (Ok _, inv'), Some e => (Raise e, inv')
      | r, _ => r
      end
  end.

Definition fieldnames : list string :=
  ["id"; "name"; "desc"; "price"; "quantity"].

(** The text the writer gives a value: [None] is the empty field. *)
Definition field_text (v : option string) : string :=
  match v with
  | Some s => s
  | None => EmptyString
  end.

Definition product_row (p : Product) : list string :=
  [str_of_int (id p); field_text (name p); field_text (desc p);
   str_of_float (price p); str_of_int (quantity p)].

Fixpoint write_rows (inv : Inventory) : string :=
  match inv with
  | [] => EmptyString
  | p :: ps => csv.writerow (product_row p) ++ write_rows ps
  end.

(** [save_data]: the header, then a row per product, over the old
    content. *)
Definition save_data (filename : string) (inv : Inventory) (fs : files)
  : files :=
  write_file filename (csv.writerow fieldnames ++ write_rows inv) fs.

(** *** The session: [display_products] and [main] *)

(** What the program writes to the terminal.  The text of a rendered
    product depends on the formatting of floats and is kept as the
    product itself. *)
Inductive event : Type :=
| Cleared
| Printed (s : string)
| PrintedTable (inv : Inventory)
| PrintedDetails (p : Product)
| Prompted (s : string).

(** The state [main] runs in: the products of its [inventory], the lines
    still to be read from the terminal, what was written to it, and the
    files. *)
Record World : Type := mkWorld {
  products : Inventory;
  stdin : list string;
  stdout : list event;
  disk : files
}.

Definition IO (A : Type) : Type := World -> res A * World.

Definition ret {A : Type} (a : A) : IO A := fun w => (Ok a, w).

Definition bindIO {A B : Type} (m : IO A) (k : A -> IO B) : IO B :=
  fun w =>
    match m w with
    | (Ok a, w') => k a w'
    | (Raise e, w') => (Raise e, w')
    end.

Notation "'let*' x ':=' m 'in' k" := (bindIO m (fun x => k))
  (at level 10, x name, m at level 100, k at level 200).
Notation "m ';;;' k" := (bindIO m (fun _ => k))
  (at level 100, k at level 200, right associativity).

(** [try: body except ValueError: handler]. *)
Definition try_ValueError {A : Type} (body handler : IO A) : IO A :=
  fun w =>
    match body w with
    | (Raise ValueError, w') => handler w'
    | r => r
    end.

Definition emit (ev : event) : IO unit :=
  fun w => (Ok tt, mkWorld (products w) (stdin w) (stdout w ++ [ev]) (disk w)).

Definition print (s : string) : IO unit := emit (Printed s).

(** [input(prompt)]: the next line of the terminal, [EOFError] when there
    is none. *)
Definition input (prompt : string) : IO string :=
  fun w =>
    match stdin w with
    | line :: rest =>
        (Ok line, mkWorld (products w) rest (stdout w ++ [Prompted prompt]) (disk w))
    | [] =>
        (Raise EOFError,
         mkWorld (products w) [] (stdout w ++ [Prompted prompt]) (disk w))
    end.

Definition get_inventory : IO Inventory := fun w => (Ok (products w), w).

Definition set_inventory (inv : Inventory) : IO unit :=
  fun w => (Ok tt, mkWorld inv (stdin w) (stdout w) (disk w)).

(** A value of type [res] raised or returned in [IO]. *)
Definition lift {A : Type} (r : res A) : IO A :=
  fun w => (r, w).

Definition nl : string := String ch_lf EmptyString.

Fixpoint replicate (n : nat) (c : ascii) : string :=
  match n with
  | O => EmptyString
  | S n' => String c (replicate n' c)
  end.

(** The format [{s:<n}]. *)
Definition ljust (n : nat) (s : string) : string :=
  (s ++ replicate (n - String.length s) (chr 32))%string.

Definition table_header : string :=
  (ljust 4 "ID" ++ "  " ++ ljust 15 "Name" ++ "   "
   ++ ljust 30 "Description" ++ "   " ++ ljust 15 "Price" ++ "   "
   ++ ljust 10 "Quantity")%string.

Definition separator : string := replicate 80 (chr 61).

Definition has_text (v : option string) : bool :=
  match v with
  | Some _ => true
  | None => false
  end.

(** [get_products]: [__str__] takes [len] of the name and of the
    description of each product, a [TypeError] on [None]. *)
Definition get_products (inv : Inventory) : res Inventory :=
  if forallb (fun p => has_text (name p) && has_text (desc p)) inv
  then Ok inv else Raise TypeError.

Definition display_products : IO unit :=
  emit Cleared ;;;
  print table_header ;;;
  print separator ;;;
  let* inv := get_inventory in
  let* table := lift (get_products inv) in
  emit (PrintedTable table) ;;;
  print separator.

Definition db_products : string := "db_products.csv".

Definition actions_line : string :=
  (nl ++ "Actions: 'add' - Add product | 'exit' - Exit program | 'view' - View product by ID | 'update' - Update product | 'delete' - Delete product")%string.

Definition invalid_id_message : string :=
  "Invalid input. Please enter a valid product ID.".

Definition not_found : IO unit := print (nl ++ "Product not found.").

(** The branch [action == 'add']: outside any [try]. *)
Definition action_add : IO unit :=
  let* inv := get_inventory in
  let new_id := get_next_id inv in
  let* name := input "Enter product name: " in
  let* desc := input "Enter product description: " in
  let* price := input "Enter product price: " in
  let* quantity := input "Enter product quantity: " in
  let* x := lift (py_float (Some price)) in
  let* n := lift (py_int (Some quantity)) in
  let* inv := get_inventory in
  set_inventory (add_product (mkProduct new_id (Some name) (Some desc) x n) inv) ;;;
  print (nl ++ "Product added successfully.").

Definition action_view : IO unit :=
  try_ValueError
    (let* line := input "Enter product ID: " in
     let* product_id := lift (py_int (Some line)) in
     let* inv := get_inventory in
     match get_product_by_id inv product_id with
     | Some product =>
         print (nl ++ "Product Details:") ;;;
         emit (PrintedDetails product) ;;;
         let* _ := input (nl ++ "Press Enter to go back.") in
         ret tt
     | None => not_found
     end)
    (print invalid_id_message).

Definition action_update : IO unit :=
  try_ValueError
    (let* line := input "Enter product ID to update: " in
     let* product_id := lift (py_int (Some line)) in
     let* inv := get_inventory in
     match get_product_by_id inv product_id with
     | Some product =>
         print (nl ++ "Current Product Details:") ;;;
         emit (PrintedDetails product) ;;;
         let* field := input "Which field do you want to update? (name, desc, price, quantity): " in
         let field := lower field in
         let* new_value := input ("Enter new value for " ++ field ++ ": ") in
         let* inv := get_inventory in
         let (r, inv') := update_product product_id field new_value inv in
         set_inventory inv' ;;;
         lift r ;;;
         print (nl ++ "Product " ++ field ++ " updated successfully.")
     | None => not_found
     end)
    (print invalid_id_message).

Definition action_delete : IO unit :=
  try_ValueError
    (let* line := input "Enter product ID to delete: " in
     let* product_id := lift (py_int (Some line)) in
     let* inv := get_inventory in
     match get_product_by_id inv product_id with
     | Some product =>
         set_inventory (remove_product product_id inv) ;;;
         print (nl ++ "Product with ID " ++ str_of_int product_id
                ++ " deleted successfully.")
     | None => not_found
     end)
    (print invalid_id_message).

Definition save_inventory (filename : string) : IO unit :=
  fun w =>
    (Ok tt,
     mkWorld (products w) (stdin w) (stdout w)
       (save_data filename (products w) (disk w))).

Definition action_exit : IO unit :=
  save_inventory db_products ;;;
  print "Exiting the program...".

(** One turn of [while True]: [true] when the turn ends in [break]. *)
Definition turn : IO bool :=
  display_products ;;;
  print actions_line ;;;
  let* line := input "Enter action: " in
  let action := lower line in
  if String.eqb action "exit" then action_exit ;;; ret true
  else if String.eqb action "add" then action_add ;;; ret false
  else if String.eqb action "view" then action_view ;;; ret false
  else if String.eqb action "update" then action_update ;;; ret false
  else if String.eqb action "delete" then action_delete ;;; ret false
  else print "Invalid action. Please try again." ;;; ret false.

(** The loop, for at most [fuel] turns; [None] when the turns run out. *)
Fixpoint session (fuel : nat) (w : World) : option (res unit * World) :=
  match fuel with
  | O => None
  | S fuel' =>
      match turn w with
      | (Ok true, w') => Some (Ok tt, w')
      | (Ok false, w') => session fuel' w'
      | (Raise e, w') => Some (Raise e, w')
      end
  end.

(** [main]: a fresh inventory, [load_data], then the loop. *)
Definition main (fuel : nat) (lines : list string) (fs : files)
  : option (res unit * World) :=
  match load_data fs db_products [] with
  | (Ok _, inv) => session fuel (mkWorld inv lines [] fs)
  | (Raise e, inv) => Some (Raise e, mkWorld inv lines [] fs)
  end.

End Shop.

(** ** The renderings of a product

    [Product.__str__], [Product.full_description] and the text of
    [Inventory.get_products].  The text of the format [{x:,.2f}] of a
    float is taken as the parameter [format_price]. *)

Section Rendering.

Context {F : PyFloat}.

Variable format_price : pyfloat -> string.

(** [s if len(s) <= n else s[:n] + "..."]. *)
Definition truncated (n : nat) (s : string) : string :=
  if (String.length s <=? n)%nat then s
  else (substring 0 n s ++ "...")%string.

(** [__str__]: [len] of the name, then of the description, a
    [TypeError] on [None]; then the row of the table. *)
Definition Product_str (p : Product) : res string :=
  match name p with
  | None => Raise TypeError
  | Some n =>
      match desc p with
      | None => Raise TypeError
      | Some d =>
          Ok (ljust 4 (str_of_int (id p)) ++ "  "
              ++ ljust 15 (truncated 13 n) ++ "   "
              ++ ljust 30 (truncated 23 d) ++ "   "
              ++ ljust 15 ("$" ++ format_price (price p)) ++ "   "
              ++ ljust 10 (str_of_int (quantity p)))%string
      end
  end.

(** The text an f-string gives a name or a description. *)
Definition str_of_text (v : option string) : string :=
  match v with
  | Some s => s
  | None => "None"
  end.

(** [full_description]. *)
Definition full_description (p : Product) : string :=
  ("ID: " ++ str_of_int (id p) ++ nl
   ++ "Name: " ++ str_of_text (name p) ++ nl
   ++ "Description: " ++ str_of_text (desc p) ++ nl
   ++ "Price: $" ++ format_price (price p) ++ nl
   ++ "Quantity: " ++ str_of_int (quantity p))%string.



End Rendering.

(** ** The inventory as a list of objects

    [self.products] holds references to [Product] objects, and
    [remove_product] and [update_product] assign to attributes of the
    objects it refers to.  [add_product] appends the reference it is
    given, so a caller that hands it the same object twice gets a list
    that holds the object at two places, and an assignment through one
    place shows at the other.  Here an object is known by its address:
    the state gives the attributes of the object at every address and
    the list of addresses [self.products]. *)

Module Objects.

Section Methods.

Context {F : PyFloat}.

(** A [Product] object is known by its address. *)
Definition address : Type := nat.

(** An [Inventory] instance with the objects it can refer to: the
    attributes of the object at each address, and the list
    [self.products] of addresses. *)
Record State : Type := mkState {
  object : address -> Product;
  products : list address
}.

(** The products as a reader of the list finds them. *)
Definition contents (s : State) : Inventory := map (object s) (products s).

(** An assignment to an attribute of the object at [a]. *)
Definition setattr (a : address) (f : Product -> Product)
    (obj : address -> Product) : address -> Product :=
  fun b => if Nat.eqb b a then f (obj a) else obj b.

(** [get_product_by_id]: the first object of the list with that id. *)
Definition get_product_by_id (s : State) (product_id : Z) : option address :=
  find (fun a => id (object s a) =? product_id) (products s).

(** The loop [for i, product in enumerate(...): product.id = i + 1], from
    index [i] on: one assignment after the other. *)
Fixpoint reassign_ids (i : Z) (l : list address) (obj : address -> Product)
  : address -> Product :=
  match l with
  | [] => obj
  | a :: l' => reassign_ids (i + 1) l' (setattr a (set_id (i + 1)) obj)
  end.

(** [remove_product]: the list comprehension gives the new list, then the
    loop assigns to the objects of the new list. *)
Definition remove_product (product_id : Z) (s : State) : State :=
  let kept :=
    filter (fun a => negb (id (object s a) =? product_id)) (products s) in
  mkState (reassign_ids 0 kept (object s)) kept.

(** [update_product]: the assignment goes to the object
    [get_product_by_id] returned. *)
Definition update_product (product_id : Z) (field new_value : string)
    (s : State) : res unit * State :=
  match get_product_by_id s product_id with
  | Some a =>
      if String.eqb field "name" then
        (Ok tt,
         mkState (setattr a (set_name (Some new_value)) (object s)) (products s))
      else if String.eqb field "desc" then
        (Ok tt,
         mkState (setattr a (set_desc (Some new_value)) (object s)) (products s))
      else if String.eqb field "price" then
        match float_of_str new_value with
        | Some x =>
            (Ok tt, mkState (setattr a (set_price x) (object s)) (products s))
        | None => (Raise ValueError, s)
        end
      else if String.eqb field "quantity" then
        match int_of_str new_value with
        | Some n =>
            (Ok tt, mkState (setattr a (set_quantity n) (object s)) (products s))
        | None => (Raise ValueError, s)
        end
      else (Ok tt, s)
  | None => (Ok tt, s)
  end.

(** [add_product]: [append] of the reference it is given. *)
Definition add_product (product : address) (s : State) : State :=
  mkState (object s) (products s ++ [product]).

End Methods.

End Objects.

(** ** A float instance for closed examples

    The prices [n.0] for an integer [n]: [str] gives the text Python
    gives such a float (below 10^16 in magnitude), and [float] accepts
    exactly those texts, a part of what Python accepts. *)

Definition dot_zero : string := ".0".

Definition whole_of_str (s : string) : option Z :=
  match int_signed s with
  | Some (n, r) =>
      if String.eqb r dot_zero && String.eqb (str_of_int n ++ dot_zero)%string s
      then Some n else None
  | None => None
  end.

Definition WholeFloat : PyFloat := {|
  pyfloat := Z;
  float_of_str := whole_of_str;
  str_of_float := fun n => (str_of_int n ++ dot_zero)%string
|}.

(** The format [{x:,.2f}] on the instance: the digits in groups of three,
    then two zero decimals. *)
Fixpoint grouped (digits : string) : string :=
  match digits with
  | EmptyString => EmptyString
  | String c rest =>
      String c
        (match rest with
         | EmptyString => EmptyString
         | String _ _ =>
             if (String.length rest mod 3 =? 0)%nat
             then String ch_comma (grouped rest)
             else grouped rest
         end)
  end.

Definition whole_format (n : Z) : string :=
  ((if (n <? 0)%Z then "-" else "") ++ grouped (str_of_int (Z.abs n)) ++ ".00")%string.

(** ** Closed inputs for the examples *)

Definition no_files : files := fun _ => None.

Definition widget : @Product WholeFloat :=
  @mkProduct WholeFloat 1 (Some "Widget") (Some "A small widget") 9 10.

Definition gadget : @Product WholeFloat :=
  @mkProduct WholeFloat 2 (Some "Gadget") (Some "A gadget") 20 3.

(** A file with two rows of the same id. *)
Definition twice_three : string :=
  ("id,name,desc,price,quantity" ++ nl
   ++ "3,a,b,1.0,1" ++ nl
   ++ "3,c,d,2.0,1" ++ nl)%string.



(** A product whose name holds a carriage return, and the same product
    with a line feed in its place. *)
Definition with_cr : @Product WholeFloat :=
  @mkProduct WholeFloat 1 (Some (String "a" (String ch_cr "b"))) (Some "d") 1 2.

Definition with_lf : @Product WholeFloat :=
  @mkProduct WholeFloat 1 (Some (String "a" (String ch_lf "b"))) (Some "d") 1 2.

(** The lines of a session that adds the widget and exits, and the state
    that session ends in when it starts without a file. *)
Definition add_and_exit : list string :=
  ["add"; "Widget"; "A small widget"; "9.0"; "10"; "exit"].

Definition after_add_and_exit : @World WholeFloat :=
  mkWorld [widget] []
    [Cleared; Printed table_header; Printed separator; PrintedTable [];
     Printed separator; Printed actions_line; Prompted "Enter action: ";
     Prompted "Enter product name: "; Prompted "Enter product description: ";
     Prompted "Enter product price: "; Prompted "Enter product quantity: ";
     Printed (nl ++ "Product added successfully.");
     Cleared; Printed table_header; Printed separator; PrintedTable [widget];
     Printed separator; Printed actions_line; Prompted "Enter action: ";
     Printed "Exiting the program..."]
    (save_data db_products [widget] no_files).

(** States of the session before a turn: the lines to read, over the
    widget and the gadget. *)
Definition before (lines : list string) : @World WholeFloat :=
  mkWorld [widget; gadget] lines [] no_files.

(** A product as a short row under a header in another order loads it. *)
Definition nameless : @Product WholeFloat :=
  @mkProduct WholeFloat 1 None None 1 2.

(** Objects for the examples: the widget at address 0, the gadget at
    every other address. *)
Definition shelf_objects (a : Objects.address) : @Product WholeFloat :=
  match a with
  | O => widget
  | S _ => gadget
  end.

(** The inventory that holds the widget, then the gadget. *)
Definition shelf : @Objects.State WholeFloat :=
  Objects.mkState shelf_objects [0%nat; 1%nat].

(** The inventory that holds the gadget alone. *)
Definition gadget_alone : @Objects.State WholeFloat :=
  Objects.mkState shelf_objects [1%nat].

(** The inventory after [add_product(p)] twice with the same object [p],
    the gadget. *)
Definition gadget_twice : @Objects.State WholeFloat :=
  Objects.add_product 1%nat
    (Objects.add_product 1%nat (Objects.mkState shelf_objects [])).


(** ** Notions used by the statements *)

(** The list [a; a+1; ...] of length [n]. *)
Fixpoint zrange (a : Z) (n : nat) : list Z :=
  match n with
  | O => []
  | S n' => a :: zrange (a + 1) n'
  end.

(** A text at which the scan of the digits stops. *)
Definition stops (rest : string) : Prop :=
  match rest with
  | EmptyString => True
  | String c _ => digit_of c = None /\ Ascii.eqb c ch_underscore = false
  end.

(** Whether a text holds a carriage return. *)
Fixpoint has_cr (s : string) : bool :=
  match s with
  | EmptyString => false
  | String c s' => Ascii.eqb c ch_cr || has_cr s'
  end.

Section Notions.

Context {F : PyFloat}.

(** The ids are exactly the set 1..N, N the number of products. *)
Definition ids_exactly_1_to_N (inv : Inventory) : Prop :=
  forall i, In i (ids inv) <-> 1 <= i <= Z.of_nat (List.length inv).

(** The ids are 1, 2, ..., N in the order of the list. *)
Definition ids_in_sequence (inv : Inventory) : Prop :=
  ids inv = zrange 1 (List.length inv).

(** Two products that agree on every attribute but the id. *)
Definition same_but_id (p q : Product) : Prop :=
  name p = name q /\ desc p = desc q /\ price p = price q
  /\ quantity p = quantity q.

(** The operations of the inventory after the load: the add of the
    session, which takes the id from [get_next_id], an update, successful
    or not, and a remove. *)
Inductive operation : Type :=
| Add (name desc : option string) (price : pyfloat) (quantity : Z)
| Update (product_id : Z) (field new_value : string)
| Remove (product_id : Z).

Definition perform (inv : Inventory) (o : operation) : Inventory :=
  match o with
  | Add n d x q => add_product (mkProduct (get_next_id inv) n d x q) inv
  | Update i f v => snd (update_product i f v inv)
  | Remove i => remove_product i inv
  end.

Definition perform_all (inv : Inventory) (ops : list operation) : Inventory :=
  fold_left perform ops inv.


(** A product as a save followed by a load gives it back: the name and
    the description are read in text mode, and [None] was written as the
    empty field. *)
Definition reloaded (p : Product) : Product :=
  mkProduct (id p)
    (Some (universal_newlines (field_text (name p))))
    (Some (universal_newlines (field_text (desc p))))
    (price p) (quantity p).

(** A name or a description that a save and a load give back as it is: a
    [str] without carriage return. *)
Definition plain_text (v : option string) : Prop :=
  exists s, v = Some s /\ universal_newlines s = s.

(** An action of the session that puts no line back on the terminal. *)
Definition reads {A : Type} (m : IO A) : Prop :=
  forall w r w', m w = (r, w') ->
    (List.length (stdin w') <= List.length (stdin w))%nat.

(** An operation as the session performs it: an update or a remove goes
    to an id that some product has. *)
Definition on_present_id (inv : Inventory) (o : operation) : Prop :=
  match o with
  | Add _ _ _ _ => True
  | Update k _ _ => In k (ids inv)
  | Remove k => In k (ids inv)
  end.

(** The products after each turn of the loop, in the order of the turns,
    for at most [fuel] turns: the loop goes on after a turn that ends
    without [break] and without error. *)
Fixpoint after_turns (fuel : nat) (w : World) : list Inventory :=
  match fuel with
  | O => []
  | S fuel' =>
      match turn w with
      | (Ok false, w') => products w' :: after_turns fuel' w'
      | (_, w') => [products w']
      end
  end.

(** Every inventory of the list comes from the one before it, the first
    from [inv], unchanged or by one operation. *)
Fixpoint one_at_a_time (inv : Inventory) (after : list Inventory) : Prop :=
  match after with
  | [] => True
  | inv' :: rest =>
      (inv' = inv \/ exists o, on_present_id inv o /\ inv' = perform inv o)
      /\ one_at_a_time inv' rest
  end.

(** [s'] is [s] but for the object at [a], which now is [p]: the list
    is the same and so is every other object. *)
Definition assigned (s s' : Objects.State) (a : Objects.address)
    (p : Product) : Prop :=
  Objects.products s' = Objects.products s
  /\ Objects.object s' a = p
  /\ forall b, b <> a -> Objects.object s' b = Objects.object s b.

End Notions.

(** What the round trip through the file needs of [float]: [float] reads
    back what [str] writes, and that text has none of the characters the
    writer quotes. *)
Class PyFloatLaws (F : PyFloat) : Prop := {
  float_of_str_of_float :
    forall x : pyfloat, float_of_str (str_of_float x) = Some x;
  str_of_float_unquoted :
    forall x : pyfloat, csv.quoted (str_of_float x) = false
}.

(** * Properties *)

(** ** Ranges *)

Lemma zrange_length (n : nat) (a : Z) : List.length (zrange a n) = n.
Proof.
  revert a; induction n as [|n IH]; intros a; simpl; [reflexivity|].
  now rewrite IH.
Qed.

Lemma zrange_In (n : nat) (a i : Z) :
  In i (zrange a n) <-> a <= i < a + Z.of_nat n.
Proof.
  revert a; induction n as [|n IH]; intros a.
  - simpl; lia.
  - cbn [zrange In]. rewrite IH. lia.
Qed.

Lemma zrange_NoDup (n : nat) (a : Z) : NoDup (zrange a n).
Proof.
  revert a; induction n as [|n IH]; intros a; simpl; constructor.
  - rewrite zrange_In. lia.
  - apply IH.
Qed.

Lemma zrange_snoc (n : nat) (a : Z) :
  zrange a (S n) = zrange a n ++ [a + Z.of_nat n].
Proof.
  revert a; induction n as [|n IH]; intros a.
  - simpl. now rewrite Z.add_0_r.
  - change (zrange a (S (S n))) with (a :: zrange (a + 1) (S n)).
    rewrite IH. cbn [zrange app]. do 3 f_equal. lia.
Qed.

Section InventoryProperties.

Context {F : PyFloat}.

(** ** The renumbering loop *)

Lemma reassign_ids_length (ps : list Product) (i : Z) :
  List.length (reassign_ids i ps) = List.length ps.
Proof.
  revert i; induction ps as [|p ps IH]; intros i; simpl; [reflexivity|].
  now rewrite IH.
Qed.

Lemma reassign_ids_ids (ps : list Product) (i : Z) :
  ids (reassign_ids i ps) = zrange (i + 1) (List.length ps).
Proof.
  revert i; induction ps as [|p ps IH]; intros i; simpl; [reflexivity|].
  f_equal. apply IH.
Qed.

Lemma reassign_ids_same (ps : list Product) (i : Z) :
  Forall2 same_but_id ps (reassign_ids i ps).
Proof.
  revert i; induction ps as [|p ps IH]; intros i; simpl; constructor.
  - repeat split.
  - apply IH.
Qed.

(** Renumbering changes nothing exactly when the ids already count up
    from [i + 1]. *)
Lemma reassign_ids_fix (ps : list Product) (i : Z) :
  reassign_ids i ps = ps <-> ids ps = zrange (i + 1) (List.length ps).
Proof.
  revert i; induction ps as [|p ps IH]; intros i; simpl.
  - tauto.
  - split.
    + intros H. injection H as Hp Hps. apply IH in Hps.
      rewrite <- Hps. f_equal. rewrite <- Hp at 1. reflexivity.
    + intros H. injection H as Hp Hps. apply IH in Hps.
      rewrite Hps. f_equal. destruct p; unfold set_id; simpl in *.
      now subst.
Qed.

(** ** The list comprehension of [remove_product] *)

Lemma filter_absent (inv : Inventory) (k : Z) :
  ~ In k (ids inv) -> filter (fun p => negb (id p =? k)) inv = inv.
Proof.
  induction inv as [|p ps IH]; simpl; intros H; [reflexivity|].
  destruct (Z.eqb_spec (id p) k) as [E|E]; simpl.
  - exfalso; apply H; now left.
  - f_equal. apply IH. intros Hin; apply H; now right.
Qed.

Lemma filter_single (l1 l2 : list Product) (p : Product) (k : Z) :
  id p = k -> ~ In k (ids (l1 ++ l2)) ->
  filter (fun p => negb (id p =? k)) (l1 ++ p :: l2) = l1 ++ l2.
Proof.
  intros Hp Hno. unfold ids in Hno. rewrite map_app, in_app_iff in Hno.
  rewrite filter_app. cbn [filter].
  rewrite (proj2 (Z.eqb_eq _ _) Hp). cbn [negb].
  rewrite !filter_absent; tauto.
Qed.

(** ** Lookup and assignment *)

Lemma get_product_by_id_split (inv : Inventory) (k : Z) (p : Product) :
  get_product_by_id inv k = Some p ->
  exists l1 l2, inv = l1 ++ p :: l2 /\ id p = k /\ ~ In k (ids l1).
Proof.
  induction inv as [|q qs IH]; simpl; [discriminate|].
  destruct (Z.eqb_spec (id q) k) as [E|E].
  - intros [= ->]. exists [], qs. simpl. tauto.
  - intros H. destruct (IH H) as (l1 & l2 & -> & Hp & Hno).
    exists (q :: l1), l2. simpl. intuition.
Qed.

Lemma get_product_by_id_In (inv : Inventory) (k : Z) :
  In k (ids inv) -> exists p, get_product_by_id inv k = Some p.
Proof.
  induction inv as [|q qs IH]; simpl; [tauto|].
  destruct (Z.eqb_spec (id q) k) as [E|E]; [eauto|].
  intros [H|H]; [contradiction|auto].
Qed.

Lemma get_product_by_id_absent (inv : Inventory) (k : Z) :
  ~ In k (ids inv) -> get_product_by_id inv k = None.
Proof.
  induction inv as [|q qs IH]; simpl; [reflexivity|].
  destruct (Z.eqb_spec (id q) k) as [E|E]; intros H.
  - exfalso; apply H; now left.
  - apply IH. intros Hin; apply H; now right.
Qed.

Lemma get_product_by_id_Some_In (inv : Inventory) (k : Z) (p : Product) :
  get_product_by_id inv k = Some p -> In k (ids inv).
Proof.
  intros H. destruct (get_product_by_id_split inv k p H) as (l1 & l2 & -> & Hp & _).
  unfold ids. rewrite map_app, in_app_iff. right. now left.
Qed.

Lemma assign_split (l1 l2 : list Product) (p : Product) (k : Z)
    (f : Product -> Product) :
  id p = k -> ~ In k (ids l1) ->
  assign k f (l1 ++ p :: l2) = l1 ++ f p :: l2.
Proof.
  intros Hp. induction l1 as [|q qs IH]; simpl; intros Hno.
  - now rewrite (proj2 (Z.eqb_eq _ _) Hp).
  - destruct (Z.eqb_spec (id q) k) as [E|E]; [tauto|].
    f_equal. apply IH. tauto.
Qed.

Lemma assign_ids (inv : Inventory) (k : Z) (f : Product -> Product) :
  (forall p, id (f p) = id p) -> ids (assign k f inv) = ids inv.
Proof.
  intros Hf. induction inv as [|q qs IH]; simpl; [reflexivity|].
  destruct (id q =? k); simpl; [now rewrite Hf | now rewrite IH].
Qed.

(** ** The maximum of [get_next_id] *)

Lemma fold_max_ge (l : list Z) (a : Z) : a <= fold_left Z.max l a.
Proof.
  revert a; induction l as [|x l IH]; intros a; simpl; [lia|].
  specialize (IH (Z.max a x)). lia.
Qed.

Lemma fold_max_upper (l : list Z) (a i : Z) :
  In i l -> i <= fold_left Z.max l a.
Proof.
  revert a; induction l as [|x l IH]; intros a; simpl; [tauto|].
  intros [->|H]; [|now apply IH].
  pose proof (fold_max_ge l (Z.max a i)). lia.
Qed.

Lemma fold_max_In (l : list Z) (a : Z) :
  fold_left Z.max l a = a \/ In (fold_left Z.max l a) l.
Proof.
  revert a; induction l as [|x l IH]; intros a; simpl; [now left|].
  destruct (IH (Z.max a x)) as [H|H]; [|now right; right].
  rewrite H. destruct (Z.max_spec a x) as [[_ ->]|[_ ->]]; auto.
Qed.

Lemma get_next_id_in_sequence (inv : Inventory) :
  ids_in_sequence inv -> get_next_id inv = Z.of_nat (List.length inv) + 1.
Proof.
  unfold ids_in_sequence. destruct inv as [|p ps]; [reflexivity|].
  intros H. unfold get_next_id. f_equal.
  assert (Hle : forall i, In i (ids (p :: ps)) ->
                          i <= Z.of_nat (List.length (p :: ps))).
  { intros i Hi. rewrite H in Hi. apply zrange_In in Hi. lia. }
  assert (Hin : In (Z.of_nat (List.length (p :: ps))) (ids (p :: ps))).
  { rewrite H. apply zrange_In. simpl List.length. lia. }
  pose proof (fold_max_ge (ids ps) (id p)) as Hge.
  assert (Hup : Z.of_nat (List.length (p :: ps)) <= fold_left Z.max (ids ps) (id p)).
  { destruct Hin as [E|Hin]; [rewrite <- E; exact Hge|].
    now apply fold_max_upper. }
  assert (Hm : fold_left Z.max (ids ps) (id p) <= Z.of_nat (List.length (p :: ps))).
  { destruct (fold_max_In (ids ps) (id p)) as [Hi|Hi].
    - rewrite Hi. apply Hle. now left.
    - apply Hle. now right. }
  lia.
Qed.

End InventoryProperties.

Section InventoryClaims.

Context {F : PyFloat}.


Lemma ids_in_sequence_NoDup (inv : Inventory) :
  ids_in_sequence inv -> NoDup (ids inv).
Proof.
  unfold ids_in_sequence. intros ->. apply zrange_NoDup.
Qed.

Lemma ids_exact_NoDup (inv : Inventory) :
  ids_exactly_1_to_N inv -> NoDup (ids inv).
Proof.
  intros H.
  apply (NoDup_incl_NoDup (zrange_NoDup (List.length inv) 1)).
  - unfold ids. now rewrite length_map, zrange_length.
  - intros i Hi. apply zrange_In in Hi. apply H. lia.
Qed.

Lemma ids_length (inv : Inventory) : List.length (ids inv) = List.length inv.
Proof. apply length_map. Qed.

(** C6. [get_next_id] returns 1 on the empty inventory, and on a
    non-empty one the greatest of the ids plus 1. *)
Theorem get_next_id_spec :
  get_next_id [] = 1
  /\ forall inv : Inventory, inv <> [] ->
       exists m, In m (ids inv)
                 /\ (forall i, In i (ids inv) -> i <= m)
                 /\ get_next_id inv = m + 1.
Proof.
  split; [reflexivity|].
  intros [|p ps] Hne; [contradiction|].
  exists (fold_left Z.max (ids ps) (id p)). repeat split.
  - destruct (fold_max_In (ids ps) (id p)) as [H|H].
    + rewrite H. now left.
    + now right.
  - intros i [<-|Hi].
    + apply fold_max_ge.
    + now apply fold_max_upper.
Qed.

(** C4. On an inventory whose ids are exactly 1..N, removing an id [k] of
    that range deletes the one product with id [k]; the products left
    keep their order and their other attributes and get the ids
    1, ..., N-1 in that order. *)
Theorem remove_product_present (inv : Inventory) (k : Z) :
  ids_exactly_1_to_N inv ->
  1 <= k <= Z.of_nat (List.length inv) ->
  exists l1 p l2,
    inv = l1 ++ p :: l2
    /\ id p = k
    /\ ~ In k (ids (l1 ++ l2))
    /\ remove_product k inv = reassign_ids 0 (l1 ++ l2)
    /\ Forall2 same_but_id (l1 ++ l2) (remove_product k inv)
    /\ ids (remove_product k inv) = zrange 1 (List.length inv - 1)
    /\ (forall i, In i (ids (remove_product k inv))
                  <-> 1 <= i <= Z.of_nat (List.length inv) - 1).
Proof.
  intros Hex Hk.
  pose proof (ids_exact_NoDup inv Hex) as Hnd.
  apply Hex in Hk. unfold ids in Hk. apply in_map_iff in Hk.
  destruct Hk as (p & Hp & Hin).
  destruct (in_split _ _ Hin) as (l1 & l2 & ->).
  assert (Hno : ~ In k (ids (l1 ++ l2))).
  { unfold ids in Hnd |- *. rewrite map_app in Hnd |- *. cbn [map] in Hnd.
    apply NoDup_remove_2 in Hnd. now rewrite Hp in Hnd. }
  assert (Hrm : remove_product k (l1 ++ p :: l2) = reassign_ids 0 (l1 ++ l2)).
  { unfold remove_product. now rewrite filter_single. }
  assert (Hlen : (List.length (l1 ++ p :: l2) - 1)%nat = List.length (l1 ++ l2)).
  { rewrite !length_app. simpl. lia. }
  assert (Hids : ids (remove_product k (l1 ++ p :: l2))
                 = zrange 1 (List.length (l1 ++ p :: l2) - 1)).
  { now rewrite Hrm, reassign_ids_ids, Hlen. }
  exists l1, p, l2. repeat split; auto.
  - rewrite Hrm. apply reassign_ids_same.
  - rewrite Hids in H. apply zrange_In in H. lia.
  - rewrite Hids in H. apply zrange_In in H. rewrite Hlen in H.
    rewrite !length_app in *. cbn [List.length] in *. lia.
  - intros [H1 H2]. rewrite Hids. apply zrange_In. rewrite Hlen.
    rewrite !length_app in *. cbn [List.length] in *. lia.
Qed.

(** C9. With a field name other than name, desc, price and quantity,
    [update_product] returns normally and leaves every product as it
    was. *)
Theorem update_product_unknown_field (inv : Inventory) (k : Z)
    (field new_value : string) :
  In k (ids inv) ->
  field <> "name" -> field <> "desc" -> field <> "price" ->
  field <> "quantity" ->
  update_product k field new_value inv = (Ok tt, inv).
Proof.
  intros _ H1 H2 H3 H4. unfold update_product.
  destruct (get_product_by_id inv k); [|reflexivity].
  apply String.eqb_neq in H1, H2, H3, H4.
  now rewrite H1, H2, H3, H4.
Qed.

(** C10. When no product has the id, [update_product] returns normally
    and leaves the inventory as it was, whatever the field and the new
    value: a text that is no number raises nothing. *)
Theorem update_product_absent (inv : Inventory) (k : Z)
    (field new_value : string) :
  ~ In k (ids inv) ->
  update_product k field new_value inv = (Ok tt, inv).
Proof.
  intros H. unfold update_product.
  now rewrite get_product_by_id_absent.
Qed.

(** An update never changes an id. *)
Lemma update_product_ids (inv : Inventory) (k : Z) (field new_value : string) :
  ids (snd (update_product k field new_value inv)) = ids inv.
Proof.
  unfold update_product.
  destruct (get_product_by_id inv k); [|reflexivity].
  repeat match goal with
         | |- context [if ?b then _ else _] => destruct b
         | |- context [match ?o with Some _ => _ | None => _ end] => destruct o
         end; cbn [snd]; try reflexivity; now apply assign_ids.
Qed.

Lemma update_product_length (inv : Inventory) (k : Z) (field new_value : string) :
  List.length (snd (update_product k field new_value inv)) = List.length inv.
Proof.
  rewrite <- !ids_length. now rewrite update_product_ids.
Qed.

Lemma perform_in_sequence (inv : Inventory) (o : operation) :
  ids_in_sequence inv -> ids_in_sequence (perform inv o).
Proof.
  intros H. destruct o as [n d x q|i f v|i]; cbn [perform].
  - unfold ids_in_sequence, add_product, ids in *.
    rewrite map_app, length_app, H. cbn [map List.length id].
    rewrite Nat.add_1_r, zrange_snoc. do 2 f_equal.
    rewrite get_next_id_in_sequence by exact H. lia.
  - unfold ids_in_sequence in *.
    now rewrite update_product_ids, update_product_length.
  - unfold ids_in_sequence, remove_product.
    now rewrite reassign_ids_ids, reassign_ids_length.
Qed.

Lemma perform_all_in_sequence (ops : list operation) (inv : Inventory) :
  ids_in_sequence inv -> ids_in_sequence (perform_all inv ops).
Proof.
  unfold perform_all. revert inv.
  induction ops as [|o ops IH]; intros inv H; [exact H|].
  cbn [fold_left]. apply IH. now apply perform_in_sequence.
Qed.





End InventoryClaims.

(** ** The methods on a list of objects *)

Section ObjectClaims.

Context {F : PyFloat}.

Lemma setattr_same (a : Objects.address) (f : Product -> Product)
    (obj : Objects.address -> Product) :
  Objects.setattr a f obj a = f (obj a).
Proof. unfold Objects.setattr. now rewrite Nat.eqb_refl. Qed.

Lemma setattr_other (a b : Objects.address) (f : Product -> Product)
    (obj : Objects.address -> Product) :
  b <> a -> Objects.setattr a f obj b = obj b.
Proof.
  intros H. unfold Objects.setattr. now rewrite (proj2 (Nat.eqb_neq b a) H).
Qed.

(** The loop leaves the objects outside the list as they are. *)
Lemma reassign_ids_outside (l : list Objects.address) (i : Z)
    (obj : Objects.address -> Product) (a : Objects.address) :
  ~ In a l -> Objects.reassign_ids i l obj a = obj a.
Proof.
  revert i obj. induction l as [|b l IH]; intros i obj H; [reflexivity|].
  cbn [Objects.reassign_ids]. rewrite IH by (intros H1; apply H; now right).
  apply setattr_other. intros ->. apply H. now left.
Qed.

(** The loop assigns to the id alone. *)
Lemma reassign_ids_same_but_id (l : list Objects.address) (i : Z)
    (obj : Objects.address -> Product) (a : Objects.address) :
  same_but_id (obj a) (Objects.reassign_ids i l obj a).
Proof.
  revert i obj. induction l as [|b l IH]; intros i obj.
  - repeat split.
  - cbn [Objects.reassign_ids].
    specialize (IH (i + 1) (Objects.setattr b (set_id (i + 1)) obj)).
    destruct (Nat.eq_dec a b) as [->|Hne].
    + rewrite setattr_same in IH. exact IH.
    + rewrite setattr_other in IH by exact Hne. exact IH.
Qed.

(** The id an object is left with is the one of its last place in the
    list. *)
Lemma reassign_ids_last (l1 l2 : list Objects.address) (i : Z)
    (obj : Objects.address -> Product) (a : Objects.address) :
  ~ In a l2 ->
  id (Objects.reassign_ids i (l1 ++ a :: l2) obj a)
  = i + Z.of_nat (List.length l1) + 1.
Proof.
  intros Hno. revert i obj. induction l1 as [|b l1 IH]; intros i obj.
  - cbn [app Objects.reassign_ids List.length].
    rewrite reassign_ids_outside by exact Hno. rewrite setattr_same.
    cbn. lia.
  - cbn [app Objects.reassign_ids List.length]. rewrite IH. lia.
Qed.

(** On a list that holds every object once, the loop is the renumbering
    of the products by their places. *)
Lemma reassign_ids_contents (l : list Objects.address) (i : Z)
    (obj : Objects.address -> Product) :
  NoDup l ->
  map (Objects.reassign_ids i l obj) l = reassign_ids i (map obj l).
Proof.
  revert i obj. induction l as [|a l IH]; intros i obj Hnd; [reflexivity|].
  inversion Hnd as [|? ? Hno Hnd']; subst.
  cbn [map Objects.reassign_ids reassign_ids]. f_equal.
  - rewrite reassign_ids_outside by exact Hno. apply setattr_same.
  - rewrite IH by exact Hnd'. f_equal. apply map_ext_in.
    intros b Hb. apply setattr_other. intros ->. contradiction.
Qed.

Lemma filter_contents (obj : Objects.address -> Product) (k : Z)
    (l : list Objects.address) :
  map obj (filter (fun a => negb (id (obj a) =? k)) l)
  = filter (fun p => negb (id p =? k)) (map obj l).
Proof.
  induction l as [|a l IH]; [reflexivity|]. cbn [filter map].
  destruct (negb (id (obj a) =? k)); cbn [map]; now rewrite IH.
Qed.

(** [remove_product] on the objects and on the products agree when the
    list holds every object once. *)
Lemma contents_remove_product (s : Objects.State) (k : Z) :
  NoDup (Objects.products s) ->
  Objects.contents (Objects.remove_product k s)
  = remove_product k (Objects.contents s).
Proof.
  intros Hnd. unfold Objects.contents, Objects.remove_product, remove_product.
  cbn [Objects.object Objects.products].
  rewrite reassign_ids_contents by (apply NoDup_filter; exact Hnd).
  now rewrite filter_contents.
Qed.

Lemma get_product_by_id_contents (s : Objects.State) (k : Z) :
  get_product_by_id (Objects.contents s) k
  = option_map (Objects.object s) (Objects.get_product_by_id s k).
Proof.
  destruct s as [obj l]. unfold Objects.contents, Objects.get_product_by_id.
  cbn [Objects.object Objects.products].
  induction l as [|a l IH]; [reflexivity|]. cbn [map get_product_by_id find].
  destruct (id (obj a) =? k); [reflexivity | exact IH].
Qed.

Lemma get_product_by_id_present (s : Objects.State) (k : Z) :
  In k (ids (Objects.contents s)) ->
  exists a, Objects.get_product_by_id s k = Some a.
Proof.
  intros Hin. destruct (get_product_by_id_In _ _ Hin) as (p & Hp).
  rewrite get_product_by_id_contents in Hp.
  destruct (Objects.get_product_by_id s k) as [a|]; [now exists a|discriminate].
Qed.

Lemma get_product_by_id_missing (s : Objects.State) (k : Z) :
  ~ In k (ids (Objects.contents s)) -> Objects.get_product_by_id s k = None.
Proof.
  intros Hno. pose proof (get_product_by_id_absent _ _ Hno) as H.
  rewrite get_product_by_id_contents in H.
  now destruct (Objects.get_product_by_id s k).
Qed.

(** The object [get_product_by_id] returns is the first of the list with
    the id. *)
Lemma get_product_by_id_place (s : Objects.State) (k : Z)
    (a : Objects.address) :
  Objects.get_product_by_id s k = Some a ->
  id (Objects.object s a) = k
  /\ exists l1 l2,
       Objects.products s = l1 ++ a :: l2
       /\ forall b, In b l1 -> id (Objects.object s b) <> k.
Proof.
  destruct s as [obj l]. unfold Objects.get_product_by_id.
  cbn [Objects.object Objects.products].
  induction l as [|b l IH]; [discriminate|]. cbn [find].
  destruct (Z.eqb_spec (id (obj b)) k) as [E|E].
  - intros [= <-]. split; [exact E|]. exists [], l. split; [reflexivity|].
    intros c [].
  - intros H. destruct (IH H) as (Hid & l1 & l2 & -> & Hl1).
    split; [exact Hid|]. exists (b :: l1), l2. split; [reflexivity|].
    intros c [<-|Hc]; [exact E | now apply Hl1].
Qed.

Lemma contents_setattr (obj : Objects.address -> Product)
    (l : list Objects.address) (k : Z) (a : Objects.address)
    (f : Product -> Product) :
  NoDup l ->
  find (fun b => id (obj b) =? k) l = Some a ->
  map (Objects.setattr a f obj) l = assign k f (map obj l).
Proof.
  induction l as [|b l IH]; [discriminate|]. intros Hnd Hf.
  inversion Hnd as [|? ? Hno Hnd']; subst. cbn [find] in Hf.
  cbn [map assign]. destruct (Z.eqb_spec (id (obj b)) k) as [E|E].
  - injection Hf as ->. rewrite setattr_same. f_equal. apply map_ext_in.
    intros c Hc. apply setattr_other. intros ->. contradiction.
  - rewrite setattr_other.
    + f_equal. now apply IH.
    + intros ->. apply Hno. now apply find_some in Hf.
Qed.

(** [update_product] on the objects and on the products agree when the
    list holds every object once. *)
Lemma contents_update_product (s : Objects.State) (k : Z)
    (field new_value : string) :
  NoDup (Objects.products s) ->
  update_product k field new_value (Objects.contents s)
  = (fst (Objects.update_product k field new_value s),
     Objects.contents (snd (Objects.update_product k field new_value s))).
Proof.
  intros Hnd. unfold update_product, Objects.update_product.
  rewrite get_product_by_id_contents.
  destruct (Objects.get_product_by_id s k) as [a|] eqn:E; [|reflexivity].
  cbn [option_map].
  repeat match goal with
         | |- context [if ?b then _ else _] => destruct b
         | |- context [match ?o with Some _ => _ | None => _ end] => destruct o
         end; cbn [fst snd]; try reflexivity;
    unfold Objects.contents; cbn [Objects.object Objects.products];
    now rewrite (contents_setattr _ _ k a _ Hnd E).
Qed.

Lemma filter_missing (obj : Objects.address -> Product) (k : Z)
    (l : list Objects.address) :
  ~ In k (ids (map obj l)) ->
  filter (fun a => negb (id (obj a) =? k)) l = l.
Proof.
  induction l as [|a l IH]; [reflexivity|]. cbn [map ids filter]. intros H.
  destruct (Z.eqb_spec (id (obj a)) k) as [E|E]; cbn [negb].
  - exfalso. apply H. now left.
  - f_equal. apply IH. intros Hin. apply H. now right.
Qed.

Lemma filter_occurrences (obj : Objects.address -> Product) (k : Z)
    (l : list Objects.address) :
  (List.length (filter (fun a => negb (id (obj a) =? k)%Z) l)
   + count_occ Z.eq_dec (ids (map obj l)) k = List.length l)%nat.
Proof.
  induction l as [|a l IH]; [reflexivity|].
  cbn [filter ids map count_occ List.length].
  destruct (Z.eq_dec (id (obj a)) k) as [E|E].
  - rewrite (proj2 (Z.eqb_eq _ _) E). cbn [negb]. fold (ids (map obj l)). lia.
  - rewrite (proj2 (Z.eqb_neq _ _) E). cbn [negb List.length].
    fold (ids (map obj l)). lia.
Qed.

(** C5, as the code has it.  Removing an id that no product has deletes
    nothing: the list is the same and every object keeps every attribute
    but the id.  The loop gives every object of the list the number of
    its place, of its last place when the list holds it more than once;
    so when the list holds every object once the ids become 1, ..., N in
    the order of the list, and the products are left as they were exactly
    when their ids were 1, ..., N in that order already. *)
Theorem remove_product_absent (s : Objects.State) (k : Z) :
  ~ In k (ids (Objects.contents s)) ->
  Objects.products (Objects.remove_product k s) = Objects.products s
  /\ (forall a, same_but_id (Objects.object s a)
                  (Objects.object (Objects.remove_product k s) a))
  /\ (forall a, ~ In a (Objects.products s) ->
        Objects.object (Objects.remove_product k s) a = Objects.object s a)
  /\ (forall l1 a l2,
        Objects.products s = l1 ++ a :: l2 -> ~ In a l2 ->
        id (Objects.object (Objects.remove_product k s) a)
        = Z.of_nat (List.length l1) + 1)
  /\ (NoDup (Objects.products s) ->
      ids (Objects.contents (Objects.remove_product k s))
      = zrange 1 (List.length (Objects.products s))
      /\ (Objects.contents (Objects.remove_product k s) = Objects.contents s
          <-> ids_in_sequence (Objects.contents s))).
Proof.
  intros Hno.
  assert (Hkept : filter (fun a => negb (id (Objects.object s a) =? k))
                    (Objects.products s) = Objects.products s)
    by (apply filter_missing; exact Hno).
  unfold Objects.remove_product. rewrite Hkept.
  cbn [Objects.object Objects.products].
  split; [reflexivity|]. split; [intros a; apply reassign_ids_same_but_id|].
  split; [intros a Ha; now apply reassign_ids_outside|].
  split.
  - intros l1 a l2 E Ha. rewrite E, reassign_ids_last by exact Ha. lia.
  - intros Hnd. unfold Objects.contents at 1 2.
    cbn [Objects.object Objects.products].
    rewrite reassign_ids_contents by exact Hnd.
    fold (Objects.contents s). split.
    + rewrite reassign_ids_ids. unfold Objects.contents.
      now rewrite length_map.
    + apply reassign_ids_fix.
Qed.

(** C7.  When a product has the id, the update goes to the object [a]
    that [get_product_by_id] returns, the first of the list with the id.
    For price, a text [float] rejects raises [ValueError] and leaves the
    inventory and every object as they were, and a text it accepts
    replaces the price of [a]: no other attribute of [a], no other object
    and not the list; likewise for quantity and [int]. *)
Theorem update_product_numeric (s : Objects.State) (k : Z)
    (new_value : string) :
  In k (ids (Objects.contents s)) ->
  exists a l1 l2,
    Objects.get_product_by_id s k = Some a
    /\ Objects.products s = l1 ++ a :: l2
    /\ (forall b, In b l1 -> id (Objects.object s b) <> k)
    /\ id (Objects.object s a) = k
    /\ match float_of_str new_value with
       | None =>
           Objects.update_product k "price" new_value s = (Raise ValueError, s)
       | Some x =>
           exists s',
             Objects.update_product k "price" new_value s = (Ok tt, s')
             /\ assigned s s' a
                  (mkProduct k (name (Objects.object s a))
                     (desc (Objects.object s a)) x
                     (quantity (Objects.object s a)))
       end
    /\ match int_of_str new_value with
       | None =>
           Objects.update_product k "quantity" new_value s
           = (Raise ValueError, s)
       | Some n =>
           exists s',
             Objects.update_product k "quantity" new_value s = (Ok tt, s')
             /\ assigned s s' a
                  (mkProduct k (name (Objects.object s a))
                     (desc (Objects.object s a))
                     (price (Objects.object s a)) n)
       end.
Proof.
  intros Hin. destruct (get_product_by_id_present s k Hin) as (a & Hget).
  destruct (get_product_by_id_place s k a Hget) as (Hid & l1 & l2 & E & Hl1).
  exists a, l1, l2. do 4 (split; [assumption|]).
  unfold Objects.update_product. rewrite Hget. cbn [String.eqb Ascii.eqb Bool.eqb].
  split.
  - destruct (float_of_str new_value) as [x|]; [|reflexivity].
    eexists. split; [reflexivity|]. repeat split.
    + cbn [Objects.object]. rewrite setattr_same. unfold set_price.
      now rewrite Hid.
    + intros b Hb. cbn [Objects.object]. now apply setattr_other.
  - destruct (int_of_str new_value) as [n|]; [|reflexivity].
    eexists. split; [reflexivity|]. repeat split.
    + cbn [Objects.object]. rewrite setattr_same. unfold set_quantity.
      now rewrite Hid.
    + intros b Hb. cbn [Objects.object]. now apply setattr_other.
Qed.

End ObjectClaims.

Section LoadClaims.

Context {F : PyFloat}.


Lemma py_int_raises (s : string) :
  int_of_str s = None -> py_int (Some s) = Raise ValueError.
Proof. intros H. unfold py_int. now rewrite H. Qed.

Lemma py_float_raises (s : string) :
  float_of_str s = None -> py_float (Some s) = Raise ValueError.
Proof. intros H. unfold py_float. now rewrite H. Qed.



End LoadClaims.

Section SessionClaims.

Context {F : PyFloat}.

Ltac run_io :=
  cbv beta iota delta
    [turn display_products action_add action_view action_update
     action_delete action_exit not_found try_ValueError bindIO emit
     print input get_inventory set_inventory lift ret
     products stdin stdout disk].

(** C3, the add branch.  When the table can be shown and the action read
    is add, a price that [float] rejects, or a quantity that [int]
    rejects, raises a [ValueError] that nothing catches: the turn and the
    session end with it, and nothing is saved. *)
Theorem add_bad_number_terminates (w : World)
    (action name desc price quantity : string) (rest : list string) :
  get_products (products w) = Ok (products w) ->
  stdin w = action :: name :: desc :: price :: quantity :: rest ->
  lower action = "add" ->
  float_of_str price = None \/ int_of_str quantity = None ->
  exists w',
    turn w = (Raise ValueError, w')
    /\ products w' = products w
    /\ disk w' = disk w
    /\ forall fuel, session (S fuel) w = Some (Raise ValueError, w').
Proof.
  intros Hshow Hin Hact Hbad. destruct w as [inv sin out fs].
  cbn [products stdin stdout disk] in *. subst sin.
  assert (Hturn : exists w', turn (mkWorld inv (action :: name :: desc :: price :: quantity :: rest) out fs) = (Raise ValueError, w')
                  /\ products w' = inv /\ disk w' = fs).
  { run_io. rewrite Hshow. run_io. rewrite Hact. cbn [String.eqb Ascii.eqb Bool.eqb].
    run_io. unfold py_float, py_int.
    destruct (float_of_str price) as [x|].
    - destruct Hbad as [Hbad|Hbad]; [discriminate|]. rewrite Hbad.
      eexists; repeat split.
    - eexists; repeat split. }
  destruct Hturn as (w' & Ht & Hp & Hd).
  exists w'. repeat split; auto.
  intros fuel. cbn [session]. now rewrite Ht.
Qed.

(** X20. The sibling branches catch the error: when the action read is view,
    update or delete, an id that [int] rejects is reported, the turn ends
    normally and the products are as they were. *)
Theorem bad_id_reported (w : World) (action line : string) (rest : list string) :
  get_products (products w) = Ok (products w) ->
  stdin w = action :: line :: rest ->
  lower action = "view" \/ lower action = "update" \/ lower action = "delete" ->
  int_of_str line = None ->
  exists out,
    turn w
    = (Ok false,
       mkWorld (products w) rest (out ++ [Printed invalid_id_message]) (disk w)).
Proof.
  intros Hshow Hin Hact Hbad. destruct w as [inv sin out fs].
  cbn [products stdin stdout disk] in *. subst sin.
  destruct Hact as [Hact|[Hact|Hact]];
    run_io; rewrite Hshow; run_io; rewrite Hact;
    cbn [String.eqb Ascii.eqb Bool.eqb]; run_io;
    unfold py_int; rewrite Hbad; eexists; reflexivity.
Qed.

End SessionClaims.

(** ** [int] reads back what [str] writes *)

Lemma int_digits_stops (acc : Z) (rest : string) :
  stops rest -> int_digits acc rest = Some (acc, rest).
Proof.
  destruct rest as [|c r]; simpl; [reflexivity|].
  now intros [-> ->].
Qed.

Lemma int_digits_uint_pos (u : Decimal.uint) (acc : positive) (rest : string) :
  stops rest ->
  int_digits (Z.pos acc) (NilEmpty.string_of_uint u ++ rest)
  = Some (Z.pos (Pos.of_uint_acc u acc), rest).
Proof.
  intros Hrest. revert acc.
  induction u as [|u IH|u IH|u IH|u IH|u IH|u IH|u IH|u IH|u IH|u IH];
    intros acc;
    [ now apply int_digits_stops | .. ];
    cbn [NilEmpty.string_of_uint append int_digits Pos.of_uint_acc];
    match goal with
    | |- context [digit_of ?c] =>
        let d := eval vm_compute in (digit_of c) in
        change (digit_of c) with d
    end;
    rewrite <- IH; f_equal; lia.
Qed.

Lemma int_digits_uint (u : Decimal.uint) (rest : string) :
  stops rest ->
  int_digits 0 (NilEmpty.string_of_uint u ++ rest)
  = Some (Z.of_N (Pos.of_uint u), rest).
Proof.
  intros Hrest.
  induction u as [|u IH|u IH|u IH|u IH|u IH|u IH|u IH|u IH|u IH|u IH];
    [ now apply int_digits_stops | exact IH | .. ];
    cbn [NilEmpty.string_of_uint append int_digits Pos.of_uint N.of_nat Z.of_N];
    match goal with
    | |- context [digit_of ?c] =>
        let d := eval vm_compute in (digit_of c) in
        change (digit_of c) with d
    end;
    rewrite <- (int_digits_uint_pos u _ rest Hrest); reflexivity.
Qed.

Lemma uint_string_head (u : Decimal.uint) :
  u <> Decimal.Nil ->
  exists c s d,
    NilEmpty.string_of_uint u = String c s
    /\ digit_of c = Some d
    /\ Ascii.eqb c ch_plus = false
    /\ Ascii.eqb c ch_minus = false
    /\ is_space c = false.
Proof.
  destruct u; [contradiction | ..]; intros _;
    do 3 eexists; (split; [reflexivity|]); vm_compute; auto.
Qed.

Lemma int_literal_uint (u : Decimal.uint) (rest : string) :
  u <> Decimal.Nil -> stops rest ->
  int_literal (NilEmpty.string_of_uint u ++ rest)
  = Some (Z.of_N (Pos.of_uint u), rest).
Proof.
  intros Hu Hrest. rewrite <- (int_digits_uint u rest Hrest).
  destruct (uint_string_head u Hu) as (c & s & d & -> & Hd & _).
  cbn [append int_literal int_digits]. now rewrite Hd.
Qed.

Lemma str_of_int_pos (p : positive) :
  str_of_int (Z.pos p) = NilEmpty.string_of_uint (Pos.to_uint p).
Proof.
  unfold str_of_int. cbn [Z.to_int NilZero.string_of_int].
  pose proof (DecimalPos.Unsigned.to_uint_nonnil p) as Hn.
  unfold NilZero.string_of_uint. now destruct (Pos.to_uint p).
Qed.

Lemma str_of_int_neg (p : positive) :
  str_of_int (Z.neg p) = String ch_minus (str_of_int (Z.pos p)).
Proof.
  rewrite str_of_int_pos.
  unfold str_of_int. cbn [Z.to_int NilZero.string_of_int].
  pose proof (DecimalPos.Unsigned.to_uint_nonnil p) as Hn.
  unfold NilZero.string_of_uint. now destruct (Pos.to_uint p).
Qed.

Lemma int_literal_pos (p : positive) (rest : string) :
  stops rest ->
  int_literal (str_of_int (Z.pos p) ++ rest) = Some (Z.pos p, rest).
Proof.
  intros Hrest. rewrite str_of_int_pos, int_literal_uint; auto.
  - now rewrite DecimalPos.Unsigned.of_to.
  - apply DecimalPos.Unsigned.to_uint_nonnil.
Qed.

(** The signed literal that [str] writes is read back, up to the text
    that follows it. *)
Lemma int_signed_str_of_int (z : Z) (rest : string) :
  stops rest -> int_signed (str_of_int z ++ rest) = Some (z, rest).
Proof.
  intros Hrest. destruct z as [|p|p].
  - change (str_of_int 0) with "0". cbn [append int_signed int_literal].
    change (Ascii.eqb "0" ch_plus) with false.
    change (Ascii.eqb "0" ch_minus) with false.
    change (digit_of "0") with (Some 0). cbv iota.
    now apply int_digits_stops.
  - pose proof (int_literal_pos p rest Hrest) as H.
    rewrite str_of_int_pos in *.
    destruct (uint_string_head (Pos.to_uint p)
                (DecimalPos.Unsigned.to_uint_nonnil p))
      as (c & s & d & E & _ & Hplus & Hminus & _).
    rewrite E in *. cbn [append int_signed] in *.
    now rewrite Hplus, Hminus.
  - rewrite str_of_int_neg. cbn [append int_signed].
    change (Ascii.eqb ch_minus ch_plus) with false.
    change (Ascii.eqb ch_minus ch_minus) with true. cbv iota.
    now rewrite int_literal_pos.
Qed.

Lemma str_of_int_head (z : Z) :
  exists c s, str_of_int z = String c s /\ is_space c = false.
Proof.
  destruct z as [|p|p].
  - now exists "0"%char, EmptyString.
  - rewrite str_of_int_pos.
    destruct (uint_string_head (Pos.to_uint p)
                (DecimalPos.Unsigned.to_uint_nonnil p))
      as (c & s & d & E & _ & _ & _ & Hsp).
    eauto.
  - rewrite str_of_int_neg. now exists ch_minus, (str_of_int (Z.pos p)).
Qed.

Lemma append_empty_r (s : string) : (s ++ EmptyString)%string = s.
Proof. induction s as [|c s IH]; simpl; [reflexivity | now rewrite IH]. Qed.

Lemma append_assoc (a b c : string) :
  ((a ++ b) ++ c)%string = (a ++ (b ++ c))%string.
Proof. induction a as [|x a IH]; simpl; [reflexivity | now rewrite IH]. Qed.

(** [int(str(n))] is [n]. *)
Theorem int_of_str_of_int (z : Z) : int_of_str (str_of_int z) = Some z.
Proof.
  unfold int_of_str.
  destruct (str_of_int_head z) as (c & s & E & Hsp).
  assert (Hl : lstrip (str_of_int z) = str_of_int z).
  { rewrite E. simpl. now rewrite Hsp. }
  rewrite Hl. rewrite <- (append_empty_r (str_of_int z)).
  now rewrite int_signed_str_of_int.
Qed.

(** The float instance reads back what it writes. *)
Lemma whole_of_str_of_whole (n : Z) :
  whole_of_str (str_of_int n ++ dot_zero) = Some n.
Proof.
  unfold whole_of_str. rewrite int_signed_str_of_int.
  - now rewrite !String.eqb_refl.
  - vm_compute. auto.
Qed.

(** ** Closed instances *)

Lemma get_next_id_spec_witness :
  [widget; gadget] <> []
  /\ exists m, In m (ids [widget; gadget])
               /\ (forall i, In i (ids [widget; gadget]) -> i <= m)
               /\ get_next_id [widget; gadget] = m + 1.
Proof.
  split; [discriminate|].
  apply (proj2 (@get_next_id_spec WholeFloat) [widget; gadget]).
  discriminate.
Defined.

Lemma widget_gadget_exact : ids_exactly_1_to_N [widget; gadget].
Proof. intros i. simpl. lia. Defined.

Lemma remove_product_present_witness :
  ids_exactly_1_to_N [widget; gadget]
  /\ 1 <= 1 <= Z.of_nat (List.length [widget; gadget])
  /\ exists l1 p l2,
       [widget; gadget] = l1 ++ p :: l2
       /\ id p = 1
       /\ ~ In 1 (ids (l1 ++ l2))
       /\ remove_product 1 [widget; gadget] = reassign_ids 0 (l1 ++ l2)
       /\ Forall2 same_but_id (l1 ++ l2) (remove_product 1 [widget; gadget])
       /\ ids (remove_product 1 [widget; gadget])
          = zrange 1 (List.length [widget; gadget] - 1)
       /\ (forall i, In i (ids (remove_product 1 [widget; gadget]))
                     <-> 1 <= i <= Z.of_nat (List.length [widget; gadget]) - 1).
Proof.
  split; [exact widget_gadget_exact|].
  split; [simpl; lia|].
  apply (@remove_product_present WholeFloat [widget; gadget] 1).
  - exact widget_gadget_exact.
  - simpl; lia.
Defined.

Lemma gadget_no_7 : ~ In 7 (ids [gadget]).
Proof. simpl. intros [H|[]]. discriminate H. Defined.

Lemma gadget_alone_no_7 : ~ In 7 (ids (Objects.contents gadget_alone)).
Proof. intros [H|[]]. discriminate H. Defined.

(** C5 as stated fails: removing the id 7 from the inventory that holds
    only the gadget, of id 2, changes that id to 1. *)
Lemma remove_product_absent_counterexample :
  Objects.contents gadget_alone = [gadget]
  /\ ~ In 7 (ids (Objects.contents gadget_alone))
  /\ Objects.contents (Objects.remove_product 7 gadget_alone)
     = [set_id 1 gadget]
  /\ Objects.contents (Objects.remove_product 7 gadget_alone)
     <> Objects.contents gadget_alone.
Proof.
  split; [reflexivity|]. split; [exact gadget_alone_no_7|].
  split; [reflexivity|]. discriminate.
Qed.

Lemma remove_product_absent_witness :
  ~ In 7 (ids (Objects.contents gadget_alone))
  /\ Objects.products (Objects.remove_product 7 gadget_alone)
     = Objects.products gadget_alone
  /\ (forall a, same_but_id (Objects.object gadget_alone a)
                  (Objects.object (Objects.remove_product 7 gadget_alone) a))
  /\ (forall a, ~ In a (Objects.products gadget_alone) ->
        Objects.object (Objects.remove_product 7 gadget_alone) a
        = Objects.object gadget_alone a)
  /\ (forall l1 a l2,
        Objects.products gadget_alone = l1 ++ a :: l2 -> ~ In a l2 ->
        id (Objects.object (Objects.remove_product 7 gadget_alone) a)
        = Z.of_nat (List.length l1) + 1)
  /\ (NoDup (Objects.products gadget_alone) ->
      ids (Objects.contents (Objects.remove_product 7 gadget_alone))
      = zrange 1 (List.length (Objects.products gadget_alone))
      /\ (Objects.contents (Objects.remove_product 7 gadget_alone)
          = Objects.contents gadget_alone
          <-> ids_in_sequence (Objects.contents gadget_alone))).
Proof.
  split; [exact gadget_alone_no_7|].
  apply (@remove_product_absent WholeFloat gadget_alone 7).
  exact gadget_alone_no_7.
Defined.

Lemma update_product_unknown_field_witness :
  In 1 (ids [widget; gadget])
  /\ update_product 1 "colour" "red" [widget; gadget]
     = (Ok tt, [widget; gadget]).
Proof.
  split; [now left|].
  apply (@update_product_unknown_field WholeFloat [widget; gadget] 1
           "colour" "red"); [now left | discriminate ..].
Defined.

Lemma update_product_absent_witness :
  ~ In 7 (ids [gadget])
  /\ update_product 7 "price" "abc" [gadget] = (Ok tt, [gadget]).
Proof.
  split; [exact gadget_no_7|].
  apply (@update_product_absent WholeFloat [gadget] 7 "price" "abc").
  exact gadget_no_7.
Defined.

Lemma shelf_has_2 : In 2 (ids (Objects.contents shelf)).
Proof. right. now left. Defined.

Lemma update_product_numeric_witness :
  In 2 (ids (Objects.contents shelf))
  /\ exists a l1 l2,
       Objects.get_product_by_id shelf 2 = Some a
       /\ Objects.products shelf = l1 ++ a :: l2
       /\ (forall b, In b l1 -> id (Objects.object shelf b) <> 2)
       /\ id (Objects.object shelf a) = 2
       /\ match @float_of_str WholeFloat "19.0" with
          | None =>
              Objects.update_product 2 "price" "19.0" shelf
              = (Raise ValueError, shelf)
          | Some x =>
              exists s',
                Objects.update_product 2 "price" "19.0" shelf = (Ok tt, s')
                /\ assigned shelf s' a
                     (mkProduct 2 (name (Objects.object shelf a))
                        (desc (Objects.object shelf a)) x
                        (quantity (Objects.object shelf a)))
          end
       /\ match int_of_str "19.0" with
          | None =>
              Objects.update_product 2 "quantity" "19.0" shelf
              = (Raise ValueError, shelf)
          | Some n =>
              exists s',
                Objects.update_product 2 "quantity" "19.0" shelf = (Ok tt, s')
                /\ assigned shelf s' a
                     (mkProduct 2 (name (Objects.object shelf a))
                        (desc (Objects.object shelf a))
                        (price (Objects.object shelf a)) n)
          end.
Proof.
  split; [exact shelf_has_2|].
  apply (@update_product_numeric WholeFloat shelf 2 "19.0").
  exact shelf_has_2.
Defined.

(** On the shelf of the examples: a price the instance reads replaces
    the price of the gadget alone, and a text that is no number leaves
    everything as it was. *)
Example update_price_objects :
  Objects.contents (snd (Objects.update_product 2 "price" "19.0" shelf))
  = [widget; @mkProduct WholeFloat 2 (Some "Gadget") (Some "A gadget") 19 3]
  /\ fst (Objects.update_product 2 "quantity" "19.0" shelf) = Raise ValueError
  /\ Objects.contents (snd (Objects.update_product 2 "quantity" "19.0" shelf))
     = [widget; gadget].
Proof. repeat split. Qed.

(** The update of the examples of the specification, on the instance:
    a price the instance reads replaces the price alone. *)
Example update_price_example :
  update_product 2 "price" "19.0" [widget; gadget]
  = (Ok tt, [widget; @mkProduct WholeFloat 2 (Some "Gadget") (Some "A gadget") 19 3])
  /\ update_product 2 "quantity" "1_000" [widget; gadget]
     = (Ok tt, [widget; @mkProduct WholeFloat 2 (Some "Gadget") (Some "A gadget") 20 1000])
  /\ update_product 2 "price" "abc" [widget; gadget]
     = (Raise ValueError, [widget; gadget]).
Proof. repeat split. Qed.




(** The ids of that run: never in the order of the list, always the
    range. *)
Example two_one_ids :
  ids (perform_all
         [@mkProduct WholeFloat 2 (Some "a") (Some "b") 1 1;
          @mkProduct WholeFloat 1 (Some "c") (Some "d") 2 1]
         [@Update WholeFloat 2 "quantity" "5";
          @Add WholeFloat (Some "Widget") (Some "A small widget") 9 10])
  = [2; 1; 3].
Proof. reflexivity. Qed.




(** C3 on a closed input: with no file, the lines add, x, y, abc, 1 end
    the session with an uncaught [ValueError], and no file is written. *)
Lemma add_bad_number_terminates_witness :
  let w := @mkWorld WholeFloat [] ["add"; "x"; "y"; "abc"; "1"] [] no_files in
  get_products (products w) = Ok (products w)
  /\ stdin w = ["add"; "x"; "y"; "abc"; "1"]
  /\ lower "add" = "add"
  /\ (@float_of_str WholeFloat "abc" = None \/ int_of_str "1" = None)
  /\ exists w',
       turn w = (Raise ValueError, w')
       /\ products w' = products w
       /\ disk w' = disk w
       /\ forall fuel, session (S fuel) w = Some (Raise ValueError, w').
Proof.
  intros w. split; [reflexivity|]. split; [reflexivity|].
  split; [reflexivity|]. split; [now left|].
  apply (@add_bad_number_terminates WholeFloat w "add" "x" "y" "abc" "1" []).
  - reflexivity.
  - reflexivity.
  - reflexivity.
  - now left.
Defined.

(** The same input through [main]: the process ends with the error. *)
Example main_add_bad_price :
  option_map
    (fun rw => (fst rw, products (snd rw), disk (snd rw) db_products))
    (@main WholeFloat 5 ["add"; "x"; "y"; "abc"; "1"] no_files)
  = Some (Raise ValueError, [], None).
Proof. reflexivity. Qed.

(** The sibling branch on a closed input: view, then an id that is no
    number, is reported and the session goes on to the exit, which
    writes the file. *)
Example main_view_bad_id :
  option_map
    (fun rw => (fst rw, nth_error (stdout (snd rw)) 8,
                disk (snd rw) db_products))
    (@main WholeFloat 5 ["view"; "abc"; "exit"] no_files)
  = Some (Ok tt, Some (Printed invalid_id_message),
          Some ("id,name,desc,price,quantity" ++ String ch_cr nl)%string).
Proof. reflexivity. Qed.

(** Two sessions in a row: the first adds a product whose name holds a
    carriage return and exits; the second starts from the file the first
    left and holds the product with a line feed in the name. *)
Example sessions_carriage_return :
  option_map
    (fun rw =>
       (fst rw, products (snd rw),
        option_map (fun rw' => (fst rw', products (snd rw')))
          (@main WholeFloat 5 ["exit"] (disk (snd rw)))))
    (@main WholeFloat 5
       ["add"; String "a" (String ch_cr "b"); "d"; "1.0"; "2"; "exit"]
       no_files)
  = Some (Ok tt, [with_cr], Some (Ok tt, [with_lf])).
Proof. reflexivity. Qed.

(** C1 on a closed input: a name with a carriage return is written
    between quotes as it is, and read back in text mode with a line feed
    in its place. *)
Theorem save_load_carriage_return :
  save_data db_products [with_cr] no_files db_products
  = Some ("id,name,desc,price,quantity" ++ String ch_cr nl
          ++ "1," ++ String ch_quote (String "a" (String ch_cr "b"))
          ++ String ch_quote ",d,1.0,2" ++ String ch_cr nl)%string
  /\ load_data (save_data db_products [with_cr] no_files) db_products []
     = (Ok tt, [with_lf])
  /\ [with_lf] <> [with_cr].
Proof.
  split; [reflexivity|]. split; [reflexivity|].
  discriminate.
Qed.

(** ** Text mode *)

Lemma append_nonempty (a b : string) (c : ascii) :
  (a ++ String c b)%string <> EmptyString.
Proof. destruct a; discriminate. Qed.

(** Induction on a text two characters at a time. *)
Lemma string_ind2 (P : string -> Prop) :
  P EmptyString ->
  (forall c, P (String c EmptyString)) ->
  (forall c d s, P s -> P (String d s) -> P (String c (String d s))) ->
  forall s, P s.
Proof.
  intros H0 H1 H2 s.
  enough (H : P s /\ forall c, P (String c s)) by apply H.
  induction s as [|d s [IHs IHc]]; [now split|].
  split; [apply IHc|]. intros c. apply H2; [exact IHs | apply IHc].
Qed.

Lemma universal_newlines_cons (c : ascii) (s : string) :
  Ascii.eqb c ch_cr = false ->
  universal_newlines (String c s) = String c (universal_newlines s).
Proof. intros H. cbn [universal_newlines]. now rewrite H. Qed.

Lemma universal_newlines_cr_lf (s : string) :
  universal_newlines (String ch_cr (String ch_lf s))
  = String ch_lf (universal_newlines s).
Proof. reflexivity. Qed.

Lemma universal_newlines_cr (c : ascii) (s : string) :
  Ascii.eqb c ch_lf = false ->
  universal_newlines (String ch_cr (String c s))
  = String ch_lf (universal_newlines (String c s)).
Proof.
  intros H. cbn [universal_newlines].
  change (Ascii.eqb ch_cr ch_cr) with true. cbv iota. now rewrite H.
Qed.

(** The three shapes of a text for the translation. *)
Ltac newline_cases c d Hc Hd :=
  destruct (Ascii.eqb_spec c ch_cr) as [Hc|Hc];
  [ subst c; destruct (Ascii.eqb_spec d ch_lf) as [Hd|Hd];
    [ subst d; rewrite ?universal_newlines_cr_lf
    | apply Ascii.eqb_neq in Hd; rewrite ?(universal_newlines_cr d) by exact Hd ]
  | apply Ascii.eqb_neq in Hc; rewrite ?(universal_newlines_cons c) by exact Hc ].

(** The translation goes through a concatenation whose second part does
    not begin with a line feed. *)
Lemma universal_newlines_app (a b : string) (c : ascii) :
  Ascii.eqb c ch_lf = false ->
  universal_newlines (a ++ String c b)
  = (universal_newlines a ++ universal_newlines (String c b))%string.
Proof.
  intros Hlf. induction a as [|x|x y a IHa IHya] using string_ind2.
  - reflexivity.
  - cbn [append]. destruct (Ascii.eqb_spec x ch_cr) as [->|Hx].
    + now rewrite universal_newlines_cr.
    + apply Ascii.eqb_neq in Hx.
      now rewrite !(universal_newlines_cons x) by exact Hx.
  - cbn [append] in *. newline_cases x y Hx Hy.
    + now rewrite IHa.
    + now rewrite IHya.
    + now rewrite IHya.
Qed.

(** A text without a character the writer quotes has no carriage return. *)
Lemma unquoted_universal_newlines (s : string) :
  csv.quoted s = false -> universal_newlines s = s.
Proof.
  induction s as [|c s IH]; [reflexivity|]. cbn [csv.quoted].
  intros H. apply orb_false_iff in H. destruct H as [H Hs].
  repeat (apply orb_false_iff in H; destruct H as [H ?]).
  rewrite universal_newlines_cons by assumption. now rewrite IH.
Qed.

Lemma quoted_universal_newlines (s : string) :
  csv.quoted (universal_newlines s) = csv.quoted s.
Proof.
  induction s as [|x|x y s IHs IHys] using string_ind2.
  - reflexivity.
  - destruct (Ascii.eqb_spec x ch_cr) as [->|Hx]; [reflexivity|].
    apply Ascii.eqb_neq in Hx. now rewrite universal_newlines_cons.
  - newline_cases x y Hx Hy.
    + change (csv.quoted (String ch_cr (String ch_lf s))) with true.
      cbn [csv.quoted]. change (Ascii.eqb ch_lf ch_lf) with true.
      now rewrite !orb_true_r.
    + change (csv.quoted (String ch_cr (String y s))) with true.
      cbn [csv.quoted]. change (Ascii.eqb ch_lf ch_lf) with true.
      now rewrite !orb_true_r.
    + cbn [csv.quoted] in *. now rewrite IHys.
Qed.

Lemma field_data_universal_newlines (s : string) :
  universal_newlines (csv.field_data s)
  = csv.field_data (universal_newlines s).
Proof.
  induction s as [|x|x y s IHs IHys] using string_ind2.
  - reflexivity.
  - destruct (Ascii.eqb_spec x ch_cr) as [->|Hx]; [reflexivity|].
    apply Ascii.eqb_neq in Hx. rewrite universal_newlines_cons by exact Hx.
    cbn [csv.field_data]. destruct (Ascii.eqb x ch_quote); [reflexivity|].
    now rewrite universal_newlines_cons.
  - newline_cases x y Hx Hy.
    + change (csv.field_data (String ch_cr (String ch_lf s)))
        with (String ch_cr (String ch_lf (csv.field_data s))).
      rewrite universal_newlines_cr_lf, IHs. reflexivity.
    + change (csv.field_data (String ch_cr (String y s)))
        with (String ch_cr (csv.field_data (String y s))).
      change (csv.field_data (String ch_lf (universal_newlines (String y s))))
        with (String ch_lf (csv.field_data (universal_newlines (String y s)))).
      rewrite <- IHys. cbn [csv.field_data].
      destruct (Ascii.eqb y ch_quote) eqn:Hq.
      * apply Ascii.eqb_eq in Hq. subst y. reflexivity.
      * now rewrite universal_newlines_cr.
    + change (csv.field_data (String x (String y s)))
        with (if Ascii.eqb x ch_quote
              then String ch_quote (String ch_quote (csv.field_data (String y s)))
              else String x (csv.field_data (String y s))).
      cbn [csv.field_data] in IHys |- *.
      destruct (Ascii.eqb x ch_quote) eqn:Hq.
      * apply Ascii.eqb_eq in Hq. subst x.
        rewrite !universal_newlines_cons by reflexivity. now rewrite IHys.
      * rewrite universal_newlines_cons by exact Hx. now rewrite IHys.
Qed.

Lemma join_append_universal_newlines (s : string) :
  universal_newlines (csv.join_append s)
  = csv.join_append (universal_newlines s).
Proof.
  unfold csv.join_append. rewrite quoted_universal_newlines.
  destruct (csv.quoted s) eqn:Hq.
  - rewrite universal_newlines_cons by reflexivity.
    rewrite universal_newlines_app by reflexivity.
    now rewrite field_data_universal_newlines.
  - reflexivity.
Qed.

(** The text of a row, as the file holds it and as text mode reads it. *)
Lemma join_fields_universal_newlines (fs : list string) (rest : string) :
  fs <> [] ->
  universal_newlines (csv.join_fields fs ++ csv.lineterminator ++ rest)
  = (csv.join_fields (map universal_newlines fs)
     ++ String ch_lf (universal_newlines rest))%string.
Proof.
  intros Hne. induction fs as [|f fs IH]; [contradiction|].
  destruct fs as [|g fs].
  - cbn [csv.join_fields map]. unfold csv.lineterminator. cbn [append].
    rewrite universal_newlines_app by reflexivity.
    now rewrite join_append_universal_newlines, universal_newlines_cr_lf.
  - change (csv.join_fields (f :: g :: fs))
      with (csv.join_append f ++ String ch_comma (csv.join_fields (g :: fs)))%string.
    change (csv.join_fields (map universal_newlines (f :: g :: fs)))
      with (csv.join_append (universal_newlines f)
            ++ String ch_comma
                 (csv.join_fields (map universal_newlines (g :: fs))))%string.
    rewrite !append_assoc. cbn [append].
    rewrite universal_newlines_app by reflexivity.
    rewrite join_append_universal_newlines.
    rewrite universal_newlines_cons by reflexivity.
    rewrite IH by discriminate. reflexivity.
Qed.

Lemma writerow_fields (f g : string) (fs : list string) :
  csv.writerow (f :: g :: fs)
  = (csv.join_fields (f :: g :: fs) ++ csv.lineterminator)%string.
Proof.
  unfold csv.writerow.
  destruct (csv.join_fields (f :: g :: fs)) eqn:E; [|reflexivity].
  exfalso. revert E.
  change (csv.join_fields (f :: g :: fs))
    with (csv.join_append f ++ String ch_comma (csv.join_fields (g :: fs)))%string.
  apply append_nonempty.
Qed.

(** ** The reader over the lines of a text *)

Lemma lines_of_nonempty (s : string) : s <> EmptyString -> lines_of s <> [].
Proof.
  destruct s as [|c s]; [contradiction|]. intros _. cbn [lines_of].
  destruct (Ascii.eqb c ch_lf); [discriminate|].
  destruct (lines_of s); discriminate.
Qed.

Lemma append_rest_nonempty (a b : string) :
  b <> EmptyString -> (a ++ b)%string <> EmptyString.
Proof. destruct a; [trivial | discriminate]. Qed.

(** A character other than the line feed, with text after it, is given
    to the parser and the line goes on. *)
Lemma rows_from_char (r : csv.Reader) (c : ascii) (s : string) :
  Ascii.eqb c ch_lf = false -> s <> EmptyString ->
  csv.rows_from r (lines_of (String c s))
  = match csv.parse_process_char r (Some c) with
    | Ok r1 => csv.rows_from r1 (lines_of s)
    | Raise e => ([], Some e)
    end.
Proof.
  intros Hc Hs. cbn [lines_of]. rewrite Hc.
  destruct (lines_of s) as [|l ls] eqn:E.
  - now apply lines_of_nonempty in Hs.
  - cbn [csv.rows_from csv.process_line].
    destruct (csv.parse_process_char r (Some c)); reflexivity.
Qed.

(** A line feed ends the line: the parser gets it, then the end-of-line
    mark, and the record is returned if the state is [START_RECORD]. *)
Lemma rows_from_lf (r : csv.Reader) (s : string) :
  csv.rows_from r (lines_of (String ch_lf s))
  = match (r1 <- csv.parse_process_char r (Some ch_lf) ;;
           csv.parse_process_char r1 None) with
    | Raise e => ([], Some e)
    | Ok r2 =>
        if csv.state_eqb (csv.state r2) csv.START_RECORD
        then let (rows, e) := csv.rows_from csv.parse_reset (lines_of s) in
             (csv.fields r2 :: rows, e)
        else csv.rows_from r2 (lines_of s)
    end.
Proof.
  cbn [lines_of]. change (Ascii.eqb ch_lf ch_lf) with true. cbv iota.
  cbn [csv.rows_from csv.process_line].
  destruct (csv.parse_process_char r (Some ch_lf)); reflexivity.
Qed.

Ltac closed_chars :=
  repeat match goal with
         | |- context [Ascii.eqb ?a ?b] =>
             lazymatch a with
             | ch_quote => idtac | ch_comma => idtac
             | ch_lf => idtac | ch_cr => idtac
             end;
             lazymatch b with
             | ch_quote => idtac | ch_comma => idtac
             | ch_lf => idtac | ch_cr => idtac
             end;
             let v := eval vm_compute in (Ascii.eqb a b) in
             change (Ascii.eqb a b) with v
         end.

Ltac parser_step :=
  cbv beta iota delta
    [csv.parse_process_char csv.process_start_field csv.state csv.fields
     csv.field csv.set_state csv.parse_save_field csv.parse_add_char
     csv.is_newline csv.state_eqb bind];
  closed_chars; cbv beta iota delta [orb].

Lemma quoted_cons (c : ascii) (s : string) :
  csv.quoted (String c s) = false ->
  Ascii.eqb c ch_comma = false /\ Ascii.eqb c ch_quote = false
  /\ Ascii.eqb c ch_cr = false /\ Ascii.eqb c ch_lf = false
  /\ csv.quoted s = false.
Proof.
  cbn [csv.quoted]. intros H.
  repeat (apply orb_false_iff in H; destruct H as [H ?]). auto.
Qed.

(** The characters of an unquoted field go to the field in progress. *)
Lemma rows_from_in_field (s buf : string) (acc : list string) (rest : string) :
  csv.quoted s = false -> rest <> EmptyString ->
  csv.rows_from (csv.mkReader csv.IN_FIELD acc buf) (lines_of (s ++ rest))
  = csv.rows_from (csv.mkReader csv.IN_FIELD acc (buf ++ s)) (lines_of rest).
Proof.
  intros Hq Hrest. revert buf.
  induction s as [|c s IH]; intros buf.
  - now rewrite append_empty_r.
  - destruct (quoted_cons c s Hq) as (Hcomma & Hquote & Hcr & Hlf & Hs).
    cbn [append]. rewrite rows_from_char;
      [|exact Hlf | now apply append_rest_nonempty].
    parser_step. rewrite Hlf, Hcr, Hcomma. cbv beta iota delta [orb].
    rewrite (IH Hs). now rewrite append_assoc.
Qed.

(** The characters written for a quoted field, up to its closing quote,
    go to the field in progress as the field had them. *)
Lemma rows_from_in_quoted (s buf : string) (acc : list string) (rest : string) :
  rest <> EmptyString ->
  csv.rows_from (csv.mkReader csv.IN_QUOTED_FIELD acc buf)
    (lines_of (csv.field_data s ++ rest))
  = csv.rows_from (csv.mkReader csv.IN_QUOTED_FIELD acc (buf ++ s))
      (lines_of rest).
Proof.
  intros Hrest. revert buf.
  induction s as [|c s IH]; intros buf.
  - now rewrite append_empty_r.
  - assert (Hmore : (csv.field_data s ++ rest)%string <> EmptyString)
      by now apply append_rest_nonempty.
    cbn [csv.field_data]. destruct (Ascii.eqb_spec c ch_quote) as [->|Hquote].
    + cbn [append]. rewrite rows_from_char; [|reflexivity | discriminate].
      parser_step. rewrite rows_from_char; [|reflexivity | exact Hmore].
      parser_step. rewrite IH. now rewrite append_assoc.
    + apply Ascii.eqb_neq in Hquote. cbn [append].
      destruct (Ascii.eqb_spec c ch_lf) as [->|Hlf].
      * rewrite rows_from_lf. parser_step.
        rewrite IH. now rewrite append_assoc.
      * apply Ascii.eqb_neq in Hlf.
        rewrite rows_from_char; [|exact Hlf | exact Hmore].
        parser_step. rewrite Hquote.
        rewrite IH. now rewrite append_assoc.
Qed.

(** A non-empty field as the writer gives it, at the start of a record
    or of a field: the parser holds the field when it reaches the
    character that follows. *)
Lemma rows_from_field_body (st : csv.ParserState) (s : string)
    (acc : list string) (c : ascii) (rest : string) :
  st = csv.START_RECORD \/ st = csv.START_FIELD ->
  s <> EmptyString ->
  csv.rows_from (csv.mkReader st acc EmptyString)
    (lines_of (csv.join_append s ++ String c rest))
  = csv.rows_from
      (csv.mkReader
         (if csv.quoted s then csv.QUOTE_IN_QUOTED_FIELD else csv.IN_FIELD)
         acc s)
      (lines_of (String c rest)).
Proof.
  intros Hst Hs. unfold csv.join_append. destruct (csv.quoted s) eqn:Hq.
  - cbn [append]. rewrite append_assoc. cbn [append].
    rewrite rows_from_char;
      [|reflexivity | now apply append_rest_nonempty].
    assert (E : csv.parse_process_char (csv.mkReader st acc EmptyString)
                  (Some ch_quote)
                = Ok (csv.mkReader csv.IN_QUOTED_FIELD acc EmptyString)).
    { destruct Hst; subst st; parser_step; reflexivity. }
    rewrite E. rewrite rows_from_in_quoted by discriminate.
    cbn [append]. rewrite rows_from_char; [|reflexivity | discriminate].
    parser_step. reflexivity.
  - destruct s as [|x s]; [contradiction|].
    destruct (quoted_cons x s Hq) as (Hcomma & Hquote & Hcr & Hlf & Hs').
    cbn [append]. rewrite rows_from_char;
      [|exact Hlf | now apply append_rest_nonempty].
    assert (E : csv.parse_process_char (csv.mkReader st acc EmptyString)
                  (Some x)
                = Ok (csv.mkReader csv.IN_FIELD acc (String x EmptyString))).
    { destruct Hst; subst st; parser_step;
        rewrite Hlf, Hcr, Hcomma, Hquote; reflexivity. }
    rewrite E. rewrite rows_from_in_field; [reflexivity | exact Hs' | discriminate].
Qed.

(** A field and the delimiter after it: the field is saved and the next
    one is expected. *)
Lemma rows_from_field_comma (st : csv.ParserState) (s : string)
    (acc : list string) (rest : string) :
  st = csv.START_RECORD \/ st = csv.START_FIELD ->
  rest <> EmptyString ->
  csv.rows_from (csv.mkReader st acc EmptyString)
    (lines_of (csv.join_append s ++ String ch_comma rest))
  = csv.rows_from (csv.mkReader csv.START_FIELD (acc ++ [s]) EmptyString)
      (lines_of rest).
Proof.
  intros Hst Hrest. destruct s as [|x s].
  - cbn [csv.join_append csv.quoted append].
    rewrite rows_from_char; [|reflexivity | exact Hrest].
    destruct Hst; subst st; parser_step; reflexivity.
  - rewrite rows_from_field_body; [|exact Hst | discriminate].
    rewrite rows_from_char; [|reflexivity | exact Hrest].
    destruct (csv.quoted (String x s)); parser_step; reflexivity.
Qed.

(** The last field of a row and the line feed after it: the record is
    returned and the next one starts. *)
Lemma rows_from_field_lf (s : string) (acc : list string) (rest : string) :
  csv.rows_from (csv.mkReader csv.START_FIELD acc EmptyString)
    (lines_of (csv.join_append s ++ String ch_lf rest))
  = let (rows, e) := csv.rows_from csv.parse_reset (lines_of rest) in
    ((acc ++ [s]) :: rows, e).
Proof.
  destruct s as [|x s].
  - cbn [csv.join_append csv.quoted append].
    rewrite rows_from_lf. parser_step. reflexivity.
  - rewrite rows_from_field_body; [|now right | discriminate].
    rewrite rows_from_lf.
    destruct (csv.quoted (String x s)); parser_step; reflexivity.
Qed.

(** The fields of a row after the first. *)
Lemma rows_from_fields (fs acc : list string) (rest : string) :
  fs <> [] ->
  csv.rows_from (csv.mkReader csv.START_FIELD acc EmptyString)
    (lines_of (csv.join_fields fs ++ String ch_lf rest))
  = let (rows, e) := csv.rows_from csv.parse_reset (lines_of rest) in
    ((acc ++ fs) :: rows, e).
Proof.
  intros Hne. revert acc. induction fs as [|f fs IH]; [contradiction|].
  intros acc. destruct fs as [|g fs].
  - cbn [csv.join_fields]. apply rows_from_field_lf.
  - change (csv.join_fields (f :: g :: fs))
      with (csv.join_append f ++ String ch_comma (csv.join_fields (g :: fs)))%string.
    rewrite append_assoc. cbn [append].
    rewrite rows_from_field_comma;
      [|now right | now apply append_rest_nonempty].
    rewrite IH by discriminate. now rewrite <- app_assoc.
Qed.

(** A row of two fields or more, from the start of a record. *)
Lemma rows_from_row (f g : string) (fs : list string) (rest : string) :
  csv.rows_from csv.parse_reset
    (lines_of (csv.join_fields (f :: g :: fs) ++ String ch_lf rest))
  = let (rows, e) := csv.rows_from csv.parse_reset (lines_of rest) in
    ((f :: g :: fs) :: rows, e).
Proof.
  change (csv.join_fields (f :: g :: fs))
    with (csv.join_append f ++ String ch_comma (csv.join_fields (g :: fs)))%string.
  rewrite append_assoc. cbn [append]. unfold csv.parse_reset at 1.
  rewrite rows_from_field_comma;
    [|now left | now apply append_rest_nonempty].
  now rewrite rows_from_fields by discriminate.
Qed.

(** ** Save, then load *)

Lemma quoted_app (a b : string) :
  csv.quoted (a ++ b) = csv.quoted a || csv.quoted b.
Proof.
  induction a as [|c a IH]; [reflexivity|].
  cbn [append csv.quoted]. rewrite IH. now rewrite !orb_assoc.
Qed.

Lemma quoted_uint (u : Decimal.uint) :
  csv.quoted (NilEmpty.string_of_uint u) = false.
Proof.
  induction u; cbn [NilEmpty.string_of_uint csv.quoted];
    [reflexivity | rewrite IHu; reflexivity ..].
Qed.

(** The text of an [int] is written without quotes. *)
Lemma quoted_str_of_int (z : Z) : csv.quoted (str_of_int z) = false.
Proof.
  destruct z as [|p|p].
  - reflexivity.
  - rewrite str_of_int_pos. apply quoted_uint.
  - rewrite str_of_int_neg, str_of_int_pos. cbn [csv.quoted].
    rewrite quoted_uint. reflexivity.
Qed.

Lemma WholeFloat_laws : PyFloatLaws WholeFloat.
Proof.
  split; intros x; cbn [float_of_str str_of_float WholeFloat].
  - apply whole_of_str_of_whole.
  - rewrite quoted_app, quoted_str_of_int. reflexivity.
Qed.

Section RoundTrip.

Context {F : PyFloat} {L : PyFloatLaws F}.

(** The row the reader returns for a product. *)
Lemma row_product_reloaded (p : Product) :
  row_product
    (csv.zip_row [] fieldnames (map universal_newlines (product_row p)))
  = Ok (reloaded p).
Proof.
  unfold product_row, row_product, reloaded.
  cbn [map csv.zip_row fieldnames csv.getitem String.eqb Ascii.eqb Bool.eqb bind].
  rewrite !(unquoted_universal_newlines (str_of_int _))
    by apply quoted_str_of_int.
  rewrite (unquoted_universal_newlines (str_of_float _))
    by apply str_of_float_unquoted.
  unfold py_int, py_float.
  rewrite !int_of_str_of_int, float_of_str_of_float. reflexivity.
Qed.

Lemma rows_from_write_rows (inv : Inventory) :
  csv.rows_from csv.parse_reset
    (lines_of (universal_newlines (write_rows inv)))
  = (map (fun p => map universal_newlines (product_row p)) inv, None).
Proof.
  induction inv as [|p ps IH]; [reflexivity|].
  cbn [write_rows map]. unfold product_row at 1.
  rewrite writerow_fields, append_assoc.
  rewrite join_fields_universal_newlines by discriminate.
  cbn [map]. rewrite rows_from_row, IH. reflexivity.
Qed.

(** The rows the reader returns for a saved file: the header, then a row
    per product. *)
Lemma reader_saved (inv : Inventory) :
  csv.reader
    (lines_of (universal_newlines (csv.writerow fieldnames ++ write_rows inv)))
  = (fieldnames :: map (fun p => map universal_newlines (product_row p)) inv,
     None).
Proof.
  unfold csv.reader, fieldnames at 1.
  rewrite writerow_fields, append_assoc.
  rewrite join_fields_universal_newlines by discriminate.
  change (map universal_newlines ["id"; "name"; "desc"; "price"; "quantity"])
    with fieldnames.
  unfold fieldnames at 1. rewrite rows_from_row, rows_from_write_rows.
  reflexivity.
Qed.

Lemma load_rows_reloaded (ps acc : Inventory) :
  load_rows
    (map (csv.zip_row [] fieldnames)
       (filter (fun r => negb (csv.is_blank r))
          (map (fun p => map universal_newlines (product_row p)) ps)))
    acc
  = (Ok tt, acc ++ map reloaded ps).
Proof.
  revert acc. induction ps as [|p ps IH]; intros acc.
  - cbn. now rewrite app_nil_r.
  - cbn [map filter]. unfold product_row at 1.
    cbn [map csv.is_blank negb load_rows].
    change (csv.zip_row [] fieldnames
              [universal_newlines (str_of_int (id p));
               universal_newlines (field_text (name p));
               universal_newlines (field_text (desc p));
               universal_newlines (str_of_float (price p));
               universal_newlines (str_of_int (quantity p))])
      with (csv.zip_row [] fieldnames
              (map universal_newlines (product_row p))).
    rewrite row_product_reloaded, IH, <- app_assoc. reflexivity.
Qed.

(** A save followed by a load into a fresh inventory returns normally and
    gives every product back with its id, price and quantity; the name
    and the description come back as text mode reads them, a carriage
    return or a carriage return and line feed as one line feed. *)
Theorem load_save_reloaded (fs : files) (filename : string) (inv : Inventory) :
  load_data (save_data filename inv fs) filename []
  = (Ok tt, map reloaded inv).
Proof.
  unfold load_data, save_data, write_file. rewrite String.eqb_refl.
  unfold csv.DictReader. rewrite reader_saved.
  now rewrite load_rows_reloaded.
Qed.

Lemma reloaded_plain (p : Product) :
  plain_text (name p) -> plain_text (desc p) -> reloaded p = p.
Proof.
  intros (n & Hn & En) (d & Hd & Ed). destruct p as [i pn pd x q].
  cbn in *. subst pn pd. unfold reloaded. cbn. now rewrite En, Ed.
Qed.




End RoundTrip.



(** ** The session ends *)

Section SessionEnds.

Context {F : PyFloat}.

Lemma bindIO_Ok {A B : Type} (m : IO A) (k : A -> IO B) (w w' : World) (b : B) :
  bindIO m k w = (Ok b, w') ->
  exists a w1, m w = (Ok a, w1) /\ k a w1 = (Ok b, w').
Proof.
  unfold bindIO. destruct (m w) as [[a|e] w1]; [eauto | discriminate].
Qed.

Lemma reads_bind {A B : Type} (m : IO A) (k : A -> IO B) :
  reads m -> (forall a, reads (k a)) -> reads (bindIO m k).
Proof.
  intros Hm Hk w r w'. unfold bindIO.
  destruct (m w) as [[a|e] w1] eqn:E; intros H.
  - apply Hk in H. apply Hm in E. lia.
  - injection H as _ <-. now apply Hm in E.
Qed.

Lemma reads_try {A : Type} (body handler : IO A) :
  reads body -> reads handler -> reads (try_ValueError body handler).
Proof.
  intros Hb Hh w r w'. unfold try_ValueError.
  destruct (body w) as [[a|e] w1] eqn:E; intros H.
  - injection H as _ <-. now apply Hb in E.
  - apply Hb in E. destruct e;
      try (injection H as _ <-; exact E).
    apply Hh in H. lia.
Qed.

Lemma reads_state {A : Type} (f : World -> res A * World) :
  (forall w, stdin (snd (f w)) = stdin w) -> reads f.
Proof.
  intros Hf w r w' E. specialize (Hf w). rewrite E in Hf. cbn in Hf.
  rewrite Hf. lia.
Qed.

Lemma reads_emit (ev : event) : reads (emit ev).
Proof. now apply reads_state. Qed.

Lemma reads_ret {A : Type} (a : A) : reads (ret a).
Proof. now apply reads_state. Qed.

Lemma reads_lift {A : Type} (r : res A) : reads (lift r).
Proof. now apply reads_state. Qed.

Lemma reads_get_inventory : reads get_inventory.
Proof. now apply reads_state. Qed.

Lemma reads_set_inventory (inv : Inventory) : reads (set_inventory inv).
Proof. now apply reads_state. Qed.

Lemma reads_save_inventory (filename : string) : reads (save_inventory filename).
Proof. now apply reads_state. Qed.

Lemma reads_input (prompt : string) : reads (input prompt).
Proof.
  intros w r w'. unfold input. destruct (stdin w) as [|l ls] eqn:E;
    intros [= _ <-]; cbn; lia.
Qed.

(** A line that [input] returns is taken off the terminal. *)
Lemma input_Ok (prompt line : string) (w w' : World) :
  input prompt w = (Ok line, w') ->
  (List.length (stdin w') < List.length (stdin w))%nat.
Proof.
  unfold input. destruct (stdin w) as [|l ls] eqn:E; [discriminate|].
  intros [= _ <-]. cbn. lia.
Qed.

Ltac reads_io :=
  repeat first
    [ apply reads_emit | apply reads_ret | apply reads_lift
    | apply reads_get_inventory | apply reads_set_inventory
    | apply reads_save_inventory | apply reads_input
    | apply reads_bind; [|intros ?]
    | apply reads_try
    | match goal with
      | |- reads (match ?x with _ => _ end) => destruct x
      end ].

Lemma reads_display_products : reads display_products.
Proof. unfold display_products, print. reads_io. Qed.

Lemma reads_actions :
  reads action_add /\ reads action_view /\ reads action_update
  /\ reads action_delete /\ reads action_exit.
Proof.
  unfold action_add, action_view, action_update, action_delete, action_exit,
    not_found, print.
  repeat split; reads_io.
Qed.

(** A turn that returns has taken at least one line off the terminal. *)
Lemma turn_reads_a_line (w w' : World) (b : bool) :
  turn w = (Ok b, w') ->
  (List.length (stdin w') < List.length (stdin w))%nat.
Proof.
  unfold turn. intros H.
  apply bindIO_Ok in H. destruct H as (u1 & w1 & H1 & H).
  apply reads_display_products in H1.
  apply bindIO_Ok in H. destruct H as (u2 & w2 & H2 & H).
  apply reads_emit in H2.
  apply bindIO_Ok in H. destruct H as (line & w3 & H3 & H).
  apply input_Ok in H3.
  destruct reads_actions as (Hadd & Hview & Hupdate & Hdelete & Hexit).
  assert (Hrest : (List.length (stdin w') <= List.length (stdin w3))%nat).
  { revert H.
    repeat match goal with
           | |- context [if ?c then _ else _] => destruct c
           end;
      match goal with
      | |- ?m w3 = _ -> _ =>
          let R := fresh "R" in
          assert (R : reads m) by (unfold print; reads_io; assumption);
          intros H; exact (R _ _ _ H)
      end. }
  lia.
Qed.

(** With more turns allowed than there are lines on the terminal, the
    session ends: by the exit, or by an error, [EOFError] at the latest. *)
Theorem session_ends (fuel : nat) (w : World) :
  (List.length (stdin w) < fuel)%nat -> session fuel w <> None.
Proof.
  revert w. induction fuel as [|fuel IH]; intros w Hlen; [lia|].
  cbn [session]. destruct (turn w) as [[[|]|e] w'] eqn:E; try discriminate.
  apply IH. apply turn_reads_a_line in E. lia.
Qed.

Theorem main_ends (lines : list string) (fs : files) :
  main (S (List.length lines)) lines fs <> None.
Proof.
  unfold main. destruct (load_data fs db_products []) as [[u|e] inv];
    [|discriminate].
  apply session_ends. cbn. lia.
Qed.

End SessionEnds.


Lemma session_ends_witness :
  @main WholeFloat (S (List.length ["view"; "abc"; "exit"]))
    ["view"; "abc"; "exit"] no_files <> None.
Proof. apply (@main_ends WholeFloat). Defined.

(** * Further properties of the inventory *)

Section InventoryFurther.

Context {F : PyFloat}.

Lemma get_product_by_id_app (l1 l2 : list Product) (k : Z) :
  get_product_by_id (l1 ++ l2) k
  = match get_product_by_id l1 k with
    | Some q => Some q
    | None => get_product_by_id l2 k
    end.
Proof.
  induction l1 as [|p l1 IH]; [reflexivity|]. cbn [app get_product_by_id].
  destruct (id p =? k); [reflexivity | exact IH].
Qed.

Lemma get_next_id_above (inv : Inventory) (i : Z) :
  In i (ids inv) -> i < get_next_id inv.
Proof.
  destruct inv as [|p ps]; [contradiction|]. unfold get_next_id.
  intros [<-|Hi].
  - pose proof (fold_max_ge (ids ps) (id p)). lia.
  - pose proof (fold_max_upper (ids ps) (id p) i Hi). lia.
Qed.

(** X1. The id [get_next_id] returns is greater than every id of the
    inventory, so no product has it, and adding a product under it to an
    inventory without shared ids gives one without shared ids. *)
Theorem get_next_id_fresh (inv : Inventory) :
  (forall i, In i (ids inv) -> i < get_next_id inv)
  /\ get_product_by_id inv (get_next_id inv) = None
  /\ (NoDup (ids inv) ->
      forall n d x q,
        NoDup (ids (add_product (mkProduct (get_next_id inv) n d x q) inv))).
Proof.
  assert (Hno : ~ In (get_next_id inv) (ids inv)).
  { intros H. apply get_next_id_above in H. lia. }
  split; [apply get_next_id_above|].
  split; [now apply get_product_by_id_absent|].
  intros Hnd n d x q. unfold add_product, ids. rewrite map_app. cbn [map id].
  apply NoDup_app; [exact Hnd | | ].
  - constructor; [intros [] | constructor].
  - intros i Hi [<-|[]]. now apply Hno.
Qed.

(** X2. When the ids are 1, ..., N in order, [get_next_id] is the number
    of products plus 1; after any [remove_product] it is so, whatever the
    ids were before. *)
Theorem get_next_id_counts (inv : Inventory) :
  (ids_in_sequence inv -> get_next_id inv = Z.of_nat (List.length inv) + 1)
  /\ forall k,
       get_next_id (remove_product k inv)
       = Z.of_nat (List.length (remove_product k inv)) + 1.
Proof.
  split; [apply get_next_id_in_sequence|].
  intros k. apply get_next_id_in_sequence.
  unfold ids_in_sequence, remove_product.
  now rewrite reassign_ids_ids, reassign_ids_length.
Qed.

(** X3. [get_product_by_id] returns [None] exactly when no product has
    the id; a product it returns has the id and is the first of the list
    that has it. *)
Theorem get_product_by_id_first (inv : Inventory) (k : Z) :
  (get_product_by_id inv k = None <-> ~ In k (ids inv))
  /\ forall p, get_product_by_id inv k = Some p ->
       exists l1 l2, inv = l1 ++ p :: l2 /\ id p = k /\ ~ In k (ids l1).
Proof.
  split; [|intros p; apply get_product_by_id_split].
  split.
  - intros Hnone Hin. apply get_product_by_id_In in Hin.
    destruct Hin as (p & Hp). congruence.
  - apply get_product_by_id_absent.
Qed.

(** X4. After [add_product], the lookup of an id some product already had
    returns what it returned before, and the lookup of any other id finds
    the new product if it has that id; the product added under
    [get_next_id] is found under that id. *)
Theorem get_product_by_id_add (inv : Inventory) (p : Product) (k : Z) :
  get_product_by_id (add_product p inv) k
  = match get_product_by_id inv k with
    | Some q => Some q
    | None => if id p =? k then Some p else None
    end
  /\ forall n d x q,
       get_product_by_id
         (add_product (mkProduct (get_next_id inv) n d x q) inv)
         (get_next_id inv)
       = Some (mkProduct (get_next_id inv) n d x q).
Proof.
  split; [apply get_product_by_id_app|].
  intros n d x q. unfold add_product. rewrite get_product_by_id_app.
  rewrite get_product_by_id_absent.
  - cbn. now rewrite Z.eqb_refl.
  - intros H. apply get_next_id_above in H. lia.
Qed.

Lemma get_product_by_id_assign_other (inv : Inventory) (k j : Z)
    (f : Product -> Product) :
  (forall p, id (f p) = id p) -> j <> k ->
  get_product_by_id (assign k f inv) j = get_product_by_id inv j.
Proof.
  intros Hf Hj. induction inv as [|p ps IH]; [reflexivity|].
  cbn [assign get_product_by_id].
  destruct (Z.eqb_spec (id p) k) as [E|E]; cbn [get_product_by_id].
  - rewrite Hf. destruct (Z.eqb_spec (id p) j); [lia | reflexivity].
  - destruct (id p =? j); [reflexivity | exact IH].
Qed.

Lemma update_product_raises (inv : Inventory) (k : Z)
    (field new_value : string) (e : exn) :
  fst (update_product k field new_value inv) = Raise e ->
  e = ValueError /\ snd (update_product k field new_value inv) = inv.
Proof.
  unfold update_product.
  destruct (get_product_by_id inv k); [|discriminate].
  repeat match goal with
         | |- context [if ?b then _ else _] => destruct b
         | |- context [match ?o with Some _ => _ | None => _ end] => destruct o
         end; cbn [fst snd]; intros [= <-] || discriminate; auto.
Qed.

(** X5. An update, successful or not, changes no id and no product of
    another id; the only error it raises is [ValueError], and when it
    raises the inventory is as it was. *)
Theorem update_product_frame (inv : Inventory) (k : Z)
    (field new_value : string) :
  ids (snd (update_product k field new_value inv)) = ids inv
  /\ (forall j, j <> k ->
        get_product_by_id (snd (update_product k field new_value inv)) j
        = get_product_by_id inv j)
  /\ (forall e, fst (update_product k field new_value inv) = Raise e ->
        e = ValueError /\ snd (update_product k field new_value inv) = inv).
Proof.
  split; [apply update_product_ids|]. split.
  - intros j Hj. unfold update_product.
    destruct (get_product_by_id inv k); [|reflexivity].
    repeat match goal with
           | |- context [if ?b then _ else _] => destruct b
           | |- context [match ?o with Some _ => _ | None => _ end] => destruct o
           end; cbn [snd]; try reflexivity;
      now apply get_product_by_id_assign_other.
  - apply update_product_raises.
Qed.

(** X6. With the field name or desc and a product that has the id,
    [update_product] never raises: the object [get_product_by_id]
    returns, the first of the list with the id, gets the new value as it
    is in that attribute; no other attribute of it, no other object and
    not the list change. *)
Theorem update_product_text (s : Objects.State) (k : Z) (new_value : string) :
  In k (ids (Objects.contents s)) ->
  exists a l1 l2,
    Objects.get_product_by_id s k = Some a
    /\ Objects.products s = l1 ++ a :: l2
    /\ (forall b, In b l1 -> id (Objects.object s b) <> k)
    /\ id (Objects.object s a) = k
    /\ (exists s',
          Objects.update_product k "name" new_value s = (Ok tt, s')
          /\ assigned s s' a
               (mkProduct k (Some new_value) (desc (Objects.object s a))
                  (price (Objects.object s a))
                  (quantity (Objects.object s a))))
    /\ (exists s',
          Objects.update_product k "desc" new_value s = (Ok tt, s')
          /\ assigned s s' a
               (mkProduct k (name (Objects.object s a)) (Some new_value)
                  (price (Objects.object s a))
                  (quantity (Objects.object s a)))).
Proof.
  intros Hin. destruct (get_product_by_id_present s k Hin) as (a & Hget).
  destruct (get_product_by_id_place s k a Hget) as (Hid & l1 & l2 & E & Hl1).
  exists a, l1, l2. do 4 (split; [assumption|]).
  unfold Objects.update_product. rewrite Hget. cbn [String.eqb Ascii.eqb Bool.eqb].
  split.
  - eexists. split; [reflexivity|]. repeat split.
    + cbn [Objects.object]. rewrite setattr_same. unfold set_name.
      now rewrite Hid.
    + intros b Hb. cbn [Objects.object]. now apply setattr_other.
  - eexists. split; [reflexivity|]. repeat split.
    + cbn [Objects.object]. rewrite setattr_same. unfold set_desc.
      now rewrite Hid.
    + intros b Hb. cbn [Objects.object]. now apply setattr_other.
Qed.

End InventoryFurther.

Section RemoveFurther.

Context {F : PyFloat}.

(** X7. Whatever the ids of the inventory, [remove_product] takes every
    object that has the id out of the list, all of them when several
    share it, and keeps the others in their order.  No object changes in
    another attribute than the id, and the objects that are not in the
    new list, the deleted ones among them, do not change at all.  Every
    object of the new list gets the number of its place, of its last
    place when the list holds it more than once; when the list held every
    object once the ids are 1, ..., M in the order of the new list. *)
Theorem remove_product_any (s : Objects.State) (k : Z) :
  Objects.products (Objects.remove_product k s)
  = filter (fun a => negb (id (Objects.object s a) =? k)) (Objects.products s)
  /\ (List.length (Objects.products (Objects.remove_product k s))
      + count_occ Z.eq_dec (ids (Objects.contents s)) k
      = List.length (Objects.products s))%nat
  /\ (forall a, same_but_id (Objects.object s a)
                  (Objects.object (Objects.remove_product k s) a))
  /\ (forall a, ~ In a (Objects.products (Objects.remove_product k s)) ->
        Objects.object (Objects.remove_product k s) a = Objects.object s a)
  /\ (forall l1 a l2,
        Objects.products (Objects.remove_product k s) = l1 ++ a :: l2 ->
        ~ In a l2 ->
        id (Objects.object (Objects.remove_product k s) a)
        = Z.of_nat (List.length l1) + 1)
  /\ (NoDup (Objects.products s) ->
      ids_in_sequence (Objects.contents (Objects.remove_product k s))).
Proof.
  split; [reflexivity|]. split; [apply filter_occurrences|].
  split; [intros a; apply reassign_ids_same_but_id|].
  split; [intros a Ha; now apply reassign_ids_outside|].
  split.
  - intros l1 a l2 E Ha. unfold Objects.remove_product in *.
    cbn [Objects.object Objects.products] in *.
    rewrite E, reassign_ids_last by exact Ha. lia.
  - intros Hnd. rewrite contents_remove_product by exact Hnd.
    unfold ids_in_sequence, remove_product.
    now rewrite reassign_ids_ids, reassign_ids_length.
Qed.

Ltac zbool :=
  repeat match goal with
         | |- context [Z.leb ?a ?b] => destruct (Z.leb_spec a b)
         | |- context [Z.ltb ?a ?b] => destruct (Z.ltb_spec a b)
         end;
  cbn [andb].

(** In an inventory whose ids count up from [a], the product of id [j] is
    the one at index [j - a]. *)
Lemma get_product_by_id_index (inv : Inventory) (a j : Z) :
  ids inv = zrange a (List.length inv) ->
  get_product_by_id inv j
  = if (a <=? j) && (j <? a + Z.of_nat (List.length inv))
    then nth_error inv (Z.to_nat (j - a)) else None.
Proof.
  revert a. induction inv as [|p ps IH]; intros a H.
  - cbn [get_product_by_id].
    destruct (_ && _); [now destruct (Z.to_nat (j - a)) | reflexivity].
  - cbn [ids map List.length zrange] in H. injection H as Hp Hps.
    cbn [get_product_by_id]. rewrite Hp.
    destruct (Z.eqb_spec a j) as [->|Hne].
    + replace (j - j) with 0 by lia. cbn [Z.to_nat nth_error List.length].
      zbool; (reflexivity || lia).
    + rewrite (IH (a + 1) Hps). cbn [List.length].
      zbool; try reflexivity; try lia.
      replace (Z.to_nat (j - a)) with (S (Z.to_nat (j - (a + 1)))) by lia.
      reflexivity.
Qed.

Lemma reassign_ids_nth (ps : list Product) (i : Z) (n : nat) :
  nth_error (reassign_ids i ps) n
  = option_map (set_id (i + 1 + Z.of_nat n)) (nth_error ps n).
Proof.
  revert i n. induction ps as [|p ps IH]; intros i n.
  - now destruct n.
  - destruct n as [|n]; cbn [reassign_ids nth_error option_map].
    + now rewrite Z.add_0_r.
    + rewrite IH. now replace (i + 1 + 1 + Z.of_nat n)
        with (i + 1 + Z.of_nat (S n)) by lia.
Qed.

Lemma zrange_nth (n : nat) (a : Z) (i : nat) :
  (i < n)%nat -> nth_error (zrange a n) i = Some (a + Z.of_nat i).
Proof.
  revert a i. induction n as [|n IH]; intros a i Hi; [lia|].
  destruct i as [|i]; cbn [zrange nth_error].
  - now rewrite Z.add_0_r.
  - rewrite IH by lia. f_equal. lia.
Qed.

(** In an inventory in sequence, the product of id [k] is at index
    [k - 1], and it is the only one the comprehension drops. *)
Lemma in_sequence_split (inv : Inventory) (k : Z) :
  ids_in_sequence inv -> 1 <= k <= Z.of_nat (List.length inv) ->
  exists l1 p l2,
    inv = l1 ++ p :: l2 /\ Z.of_nat (List.length l1) = k - 1
    /\ filter (fun q => negb (id q =? k)) inv = l1 ++ l2.
Proof.
  intros Hseq Hk.
  pose proof (ids_in_sequence_NoDup inv Hseq) as Hnd.
  assert (Hin : In k (ids inv)).
  { rewrite Hseq. apply zrange_In. lia. }
  unfold ids in Hin. apply in_map_iff in Hin. destruct Hin as (p & Hp & Hin).
  destruct (in_split _ _ Hin) as (l1 & l2 & ->).
  exists l1, p, l2. split; [reflexivity|]. split.
  - assert (Hnth : nth_error (ids (l1 ++ p :: l2)) (List.length l1) = Some k).
    { unfold ids. rewrite map_app, nth_error_app2 by (rewrite length_map; lia).
      rewrite length_map, Nat.sub_diag. cbn. now rewrite Hp. }
    rewrite Hseq, zrange_nth in Hnth.
    + pose proof (f_equal (fun o => match o with Some z => z | None => 0 end)
                    Hnth) as Hz.
      cbv beta iota in Hz. lia.
    + rewrite length_app. cbn [List.length]. lia.
  - apply filter_single; [exact Hp|].
    unfold ids in Hnd |- *. rewrite map_app in Hnd |- *. cbn [map] in Hnd.
    apply NoDup_remove_2 in Hnd. now rewrite Hp in Hnd.
Qed.

(** X8. In an inventory whose ids are 1, ..., N in order, removing the id
    [k] shifts the products behind it: afterwards the id [j] below [k]
    finds the product it found before, the id [j] from [k] to N - 1 finds
    the product that had the id [j + 1], under the id [j], and no other
    id finds a product. *)
Theorem remove_product_shifts (inv : Inventory) (k j : Z) :
  ids_in_sequence inv ->
  1 <= k <= Z.of_nat (List.length inv) ->
  get_product_by_id (remove_product k inv) j
  = if (1 <=? j) && (j <? Z.of_nat (List.length inv))
    then option_map (set_id j)
           (get_product_by_id inv (if j <? k then j else j + 1))
    else None.
Proof.
  intros Hseq Hk.
  destruct (in_sequence_split inv k Hseq Hk) as (l1 & p & l2 & E & Hl1 & Hf).
  assert (Hlen : Z.of_nat (List.length inv)
                 = Z.of_nat (List.length (l1 ++ l2)) + 1).
  { rewrite E, !length_app. cbn [List.length]. lia. }
  unfold remove_product. rewrite Hf.
  rewrite (get_product_by_id_index (reassign_ids 0 (l1 ++ l2)) 1 j)
    by now rewrite reassign_ids_ids, reassign_ids_length.
  rewrite reassign_ids_length, reassign_ids_nth.
  rewrite !(get_product_by_id_index inv 1 _ Hseq).
  zbool; try reflexivity; try lia.
  - replace (0 + 1 + Z.of_nat (Z.to_nat (j - 1))) with j by lia.
    f_equal. rewrite E. rewrite !nth_error_app1 by lia. reflexivity.
  - replace (0 + 1 + Z.of_nat (Z.to_nat (j - 1))) with j by lia.
    f_equal. rewrite E. rewrite !nth_error_app2 by lia.
    replace (Z.to_nat (j + 1 - 1) - List.length l1)%nat
      with (S (Z.to_nat (j - 1) - List.length l1)) by lia.
    reflexivity.
Qed.

End RemoveFurther.

(** * Further properties of the persistence *)

(** ** Carriage returns *)

Lemma has_cr_universal_newlines (s : string) :
  has_cr (universal_newlines s) = false.
Proof.
  induction s as [|x|x y s IHs IHys] using string_ind2.
  - reflexivity.
  - destruct (Ascii.eqb_spec x ch_cr) as [->|Hx]; [reflexivity|].
    apply Ascii.eqb_neq in Hx. rewrite universal_newlines_cons by exact Hx.
    cbn [has_cr]. now rewrite Hx.
  - newline_cases x y Hx Hy; cbn [has_cr].
    + now rewrite IHs.
    + now rewrite IHys.
    + now rewrite Hx, IHys.
Qed.

Lemma no_cr_universal_newlines (s : string) :
  has_cr s = false -> universal_newlines s = s.
Proof.
  induction s as [|c s IH]; [reflexivity|]. cbn [has_cr].
  intros H. apply orb_false_iff in H. destruct H as [Hc Hs].
  rewrite universal_newlines_cons by exact Hc. now rewrite IH.
Qed.

Lemma has_cr_app (a b : string) :
  has_cr (a ++ b) = has_cr a || has_cr b.
Proof.
  induction a as [|c a IH]; [reflexivity|].
  cbn [append has_cr]. rewrite IH. now rewrite orb_assoc.
Qed.

Lemma lines_of_no_cr (s : string) :
  has_cr s = false -> Forall (fun l => has_cr l = false) (lines_of s).
Proof.
  induction s as [|c s IH]; [constructor|]. cbn [has_cr lines_of].
  intros H. apply orb_false_iff in H. destruct H as [Hc Hs].
  specialize (IH Hs). destruct (Ascii.eqb c ch_lf).
  - constructor; [cbn [has_cr]; now rewrite Hc | exact IH].
  - destruct (lines_of s) as [|l ls].
    + constructor; [cbn [has_cr]; now rewrite Hc | constructor].
    + inversion IH as [|? ? Hl Hls]. subst.
      constructor; [cbn [has_cr]; now rewrite Hc, Hl | exact Hls].
Qed.

(** The parser puts in its fields only characters it is given. *)
Lemma parse_process_char_no_cr (r r' : csv.Reader) (c : option ascii) :
  match c with
  | Some ch => Ascii.eqb ch ch_cr = false
  | None => True
  end ->
  Forall (fun f => has_cr f = false) (csv.fields r) ->
  has_cr (csv.field r) = false ->
  csv.parse_process_char r c = Ok r' ->
  Forall (fun f => has_cr f = false) (csv.fields r')
  /\ has_cr (csv.field r') = false.
Proof.
  intros Hc Hfs Hf.
  assert (Hsave : Forall (fun f => has_cr f = false)
                    (csv.fields r ++ [csv.field r])).
  { apply Forall_app. split; [exact Hfs | now constructor]. }
  assert (Hadd : forall ch, Ascii.eqb ch ch_cr = false ->
                 has_cr (csv.field r ++ String ch EmptyString) = false).
  { intros ch Hch. rewrite has_cr_app, Hf. cbn [has_cr orb]. now rewrite Hch. }
  unfold csv.parse_process_char, csv.process_start_field.
  destruct r as [st fs f]. cbn [csv.state csv.fields csv.field] in *.
  destruct st, c as [ch|];
    repeat match goal with
           | |- context [if ?b then _ else _] => destruct b
           end;
    intros [= <-];
    cbn [csv.set_state csv.parse_save_field csv.parse_add_char
         csv.state csv.fields csv.field];
    auto.
Qed.

Lemma process_line_no_cr (line : string) (r r' : csv.Reader) :
  has_cr line = false ->
  Forall (fun f => has_cr f = false) (csv.fields r) ->
  has_cr (csv.field r) = false ->
  csv.process_line r line = Ok r' ->
  Forall (fun f => has_cr f = false) (csv.fields r')
  /\ has_cr (csv.field r') = false.
Proof.
  revert r. induction line as [|c line IH]; intros r Hl Hfs Hf.
  - cbn. intros [= <-]. auto.
  - cbn [has_cr] in Hl. apply orb_false_iff in Hl. destruct Hl as [Hc Hl].
    cbn [csv.process_line].
    destruct (csv.parse_process_char r (Some c)) as [r1|e] eqn:E;
      [|discriminate].
    cbn [bind]. destruct (parse_process_char_no_cr r r1 (Some c) Hc Hfs Hf E).
    now apply IH.
Qed.

Lemma rows_from_no_cr (lines : list string) (r : csv.Reader) :
  Forall (fun l => has_cr l = false) lines ->
  Forall (fun f => has_cr f = false) (csv.fields r) ->
  has_cr (csv.field r) = false ->
  Forall (Forall (fun f => has_cr f = false)) (fst (csv.rows_from r lines)).
Proof.
  intros Hlines. revert r.
  induction Hlines as [|line lines Hline Hlines IH]; intros r Hfs Hf.
  - cbn [csv.rows_from].
    destruct (negb (String.eqb (csv.field r) EmptyString)
              || csv.state_eqb (csv.state r) csv.IN_QUOTED_FIELD);
      cbn; [|constructor].
    constructor; [|constructor].
    apply Forall_app. split; [exact Hfs | now constructor].
  - cbn [csv.rows_from].
    destruct (csv.process_line r line) as [r1|e] eqn:E1; [|constructor].
    cbn [bind].
    destruct (process_line_no_cr line r r1 Hline Hfs Hf E1) as [Hfs1 Hf1].
    destruct (csv.parse_process_char r1 None) as [r2|e] eqn:E2; [|constructor].
    destruct (parse_process_char_no_cr r1 r2 None I Hfs1 Hf1 E2) as [Hfs2 Hf2].
    destruct (csv.state_eqb (csv.state r2) csv.START_RECORD).
    + specialize (IH csv.parse_reset (Forall_nil _) eq_refl).
      destruct (csv.rows_from csv.parse_reset lines) as [rows e].
      cbn [fst] in *. now constructor.
    + now apply IH.
Qed.

Lemma zip_row_no_cr (names row : list string) (d : csv.dict) :
  Forall (fun f => has_cr f = false) row ->
  (forall k s, In (k, Some s) d -> has_cr s = false) ->
  forall k s, In (k, Some s) (csv.zip_row d names row) -> has_cr s = false.
Proof.
  revert row d. induction names as [|n names IH]; intros row d Hrow Hd k s.
  - destruct row; cbn; apply Hd.
  - destruct row as [|v vs]; cbn [csv.zip_row].
    + apply IH; [constructor|].
      intros k' s' [E|Hin]; [discriminate | now apply (Hd k')].
    + inversion Hrow as [|? ? Hv Hvs]. subst. apply IH; [exact Hvs|].
      intros k' s' [E|Hin]; [|now apply (Hd k')].
      injection E as _ Es. now subst.
Qed.

Lemma getitem_In (d : csv.dict) (key : string) (v : option string) :
  csv.getitem d key = Ok v -> In (key, v) d.
Proof.
  induction d as [|[k v'] d IH]; [discriminate|]. cbn [csv.getitem].
  destruct (String.eqb_spec k key) as [->|Hk].
  - intros [= ->]. now left.
  - intros H. right. now apply IH.
Qed.

Section LoadFurther.

Context {F : PyFloat}.

(** The texts of a product. *)
Lemma row_product_no_cr (d : csv.dict) (p : Product) :
  (forall k s, In (k, Some s) d -> has_cr s = false) ->
  row_product d = Ok p ->
  forall s, name p = Some s \/ desc p = Some s -> has_cr s = false.
Proof.
  intros Hd. unfold row_product.
  destruct (csv.getitem d "id") as [vi|] eqn:Ei; [|discriminate]. cbn [bind].
  destruct (py_int vi) as [i|]; [|discriminate]. cbn [bind].
  destruct (csv.getitem d "name") as [vn|] eqn:En; [|discriminate]. cbn [bind].
  destruct (csv.getitem d "desc") as [vd|] eqn:Ed; [|discriminate]. cbn [bind].
  destruct (csv.getitem d "price") as [vp|]; [|discriminate]. cbn [bind].
  destruct (py_float vp) as [x|]; [|discriminate]. cbn [bind].
  destruct (csv.getitem d "quantity") as [vq|]; [|discriminate]. cbn [bind].
  destruct (py_int vq) as [q|]; [|discriminate]. cbn [bind].
  intros [= <-] s. cbn [name desc]. intros [-> | ->].
  - apply getitem_In in En. now apply (Hd "name").
  - apply getitem_In in Ed. now apply (Hd "desc").
Qed.

Lemma load_rows_no_cr (rows : list csv.dict) (inv inv' : Inventory)
    (r : res unit) :
  Forall (fun d => forall k s, In (k, Some s) d -> has_cr s = false) rows ->
  (forall p, In p inv ->
     forall s, name p = Some s \/ desc p = Some s -> has_cr s = false) ->
  load_rows rows inv = (r, inv') ->
  forall p, In p inv' ->
    forall s, name p = Some s \/ desc p = Some s -> has_cr s = false.
Proof.
  intros Hrows. revert inv.
  induction Hrows as [|d rows Hd Hrows IH]; intros inv Hinv.
  - cbn. intros [= _ <-]. exact Hinv.
  - cbn [load_rows]. destruct (row_product d) as [q|e] eqn:E.
    + apply IH. intros p Hp. apply in_app_iff in Hp.
      destruct Hp as [Hp|[<-|[]]]; [now apply Hinv|].
      now apply (row_product_no_cr d).
    + intros [= _ <-]. exact Hinv.
Qed.

Lemma DictReader_no_cr (text : string) :
  Forall (fun d => forall k s, In (k, Some s) d -> has_cr s = false)
    (fst (csv.DictReader (lines_of (universal_newlines text)))).
Proof.
  unfold csv.DictReader, csv.reader.
  pose proof (rows_from_no_cr (lines_of (universal_newlines text))
                csv.parse_reset
                (lines_of_no_cr _ (has_cr_universal_newlines text))
                (Forall_nil _) eq_refl) as H.
  destruct (csv.rows_from csv.parse_reset (lines_of (universal_newlines text)))
    as [[|names rows] e]; cbn [fst] in *; [constructor|].
  inversion H as [|? ? Hnames Hrows]. subst.
  apply Forall_map, Forall_forall. intros row Hrow.
  apply filter_In in Hrow. destruct Hrow as [Hrow _].
  rewrite Forall_forall in Hrows.
  apply zip_row_no_cr; [now apply Hrows | intros ? ? []].
Qed.

Lemma load_data_no_cr (fs : files) (filename : string) (r : res unit)
    (inv : Inventory) :
  load_data fs filename [] = (r, inv) ->
  forall p, In p inv ->
    forall s, name p = Some s \/ desc p = Some s -> has_cr s = false.
Proof.
  unfold load_data. destruct (fs filename) as [text|];
    [|intros [= _ <-] p []].
  pose proof (DictReader_no_cr text) as Hd.
  destruct (csv.DictReader (lines_of (universal_newlines text))) as [rows e].
  cbn [fst] in Hd.
  destruct (load_rows rows []) as [r0 inv0] eqn:E.
  pose proof (load_rows_no_cr rows [] inv0 r0 Hd
                ltac:(intros ? []) E) as H.
  destruct r0, e; intros [= _ <-]; exact H.
Qed.

(** X9. Whatever the file holds, no name and no description that
    [load_data] puts in the inventory holds a carriage return, also when
    the load ends in an error. *)
Theorem load_data_no_carriage_return (fs : files) (filename : string) :
  forall p, In p (snd (load_data fs filename [])) ->
    forall s, name p = Some s \/ desc p = Some s -> has_cr s = false.
Proof.
  destruct (load_data fs filename []) as [r inv] eqn:E. cbn [snd].
  exact (load_data_no_cr fs filename r inv E).
Qed.

Lemma load_rows_append (rows : list csv.dict) (inv : Inventory) :
  load_rows rows inv
  = (fst (load_rows rows []), inv ++ snd (load_rows rows [])).
Proof.
  revert inv. induction rows as [|d rows IH]; intros inv.
  - cbn. now rewrite app_nil_r.
  - cbn [load_rows]. destruct (row_product d) as [p|e].
    + rewrite (IH (inv ++ [p])), (IH ([] ++ [p])). cbn [fst snd app].
      now rewrite <- app_assoc.
    + cbn. now rewrite app_nil_r.
Qed.

(** X10. [load_data] appends: the products the inventory held stay in
    front, in order, and the outcome and the products appended are those
    of a load into a fresh inventory.  Nothing is taken back when the
    load raises. *)
Theorem load_data_appends (fs : files) (filename : string) (inv : Inventory) :
  load_data fs filename inv
  = (fst (load_data fs filename []), inv ++ snd (load_data fs filename [])).
Proof.
  unfold load_data. destruct (fs filename) as [text|].
  - destruct (csv.DictReader (lines_of (universal_newlines text))) as [rows e].
    rewrite (load_rows_append rows inv).
    destruct (load_rows rows []) as [[u|x] l]; cbn [fst snd];
      destruct e; reflexivity.
  - cbn. now rewrite app_nil_r.
Qed.

End LoadFurther.

Section RoundTripFurther.

Context {F : PyFloat} {L : PyFloatLaws F}.


(** X12. What a load has read is saved and loaded again without change:
    when [load_data] leaves an inventory in which every name and
    description is present, a save of it followed by a load gives the
    same inventory. *)
Theorem reload_exact (fs fs' : files) (filename filename' : string)
    (r : res unit) (inv : Inventory) :
  load_data fs filename [] = (r, inv) ->
  (forall p, In p inv -> name p <> None /\ desc p <> None) ->
  load_data (save_data filename' inv fs') filename' [] = (Ok tt, inv).
Proof.
  intros Hload Hpresent. rewrite load_save_reloaded. f_equal.
  pose proof (load_data_no_cr fs filename r inv Hload) as Hcr.
  clear Hload. induction inv as [|p ps IH]; [reflexivity|].
  cbn [map]. rewrite IH.
  - f_equal. destruct (Hpresent p (or_introl eq_refl)) as [Hn Hd].
    apply reloaded_plain.
    + destruct (name p) as [s|] eqn:E; [|contradiction].
      exists s. split; [reflexivity|]. apply no_cr_universal_newlines.
      apply (Hcr p (or_introl eq_refl)). now left.
    + destruct (desc p) as [s|] eqn:E; [|contradiction].
      exists s. split; [reflexivity|]. apply no_cr_universal_newlines.
      apply (Hcr p (or_introl eq_refl)). now right.
  - intros q Hq. apply Hpresent. now right.
  - intros q Hq. apply Hcr. now right.
Qed.

End RoundTripFurther.


Lemma twice_three_present (p : @Product WholeFloat) :
  In p [@mkProduct WholeFloat 3 (Some "a") (Some "b") 1 1;
        @mkProduct WholeFloat 3 (Some "c") (Some "d") 2 1] ->
  name p <> None /\ desc p <> None.
Proof. intros [<-|[<-|[]]]; split; discriminate. Defined.

Lemma reload_exact_witness :
  load_data (write_file db_products twice_three no_files) db_products []
  = (Ok tt, [@mkProduct WholeFloat 3 (Some "a") (Some "b") 1 1;
             @mkProduct WholeFloat 3 (Some "c") (Some "d") 2 1])
  /\ load_data
       (save_data "copy.csv"
          [@mkProduct WholeFloat 3 (Some "a") (Some "b") 1 1;
           @mkProduct WholeFloat 3 (Some "c") (Some "d") 2 1]
          no_files)
       "copy.csv" []
     = (Ok tt, [@mkProduct WholeFloat 3 (Some "a") (Some "b") 1 1;
                @mkProduct WholeFloat 3 (Some "c") (Some "d") 2 1]).
Proof.
  split; [reflexivity|].
  apply (@reload_exact WholeFloat WholeFloat_laws
           (write_file db_products twice_three no_files) no_files
           db_products "copy.csv" (Ok tt)).
  - reflexivity.
  - exact twice_three_present.
Defined.

(** * Further properties of the session *)

Section SessionFurther.

Context {F : PyFloat}.

(** What a turn does to the products and to the files: at most one
    operation on the products; the file is written by the exit alone. *)
Lemma turn_effect (w w' : World) (r : res bool) :
  turn w = (r, w') ->
  (products w' = products w \/ exists o, products w' = perform (products w) o)
  /\ (r = Ok true ->
      products w' = products w
      /\ disk w' = save_data db_products (products w) (disk w))
  /\ (r <> Ok true -> disk w' = disk w).
Proof.
  destruct w as [inv sin out fs]. intros H. cbn [products disk].
  cbv beta iota zeta delta
    [turn display_products action_add action_view action_update
     action_delete action_exit not_found try_ValueError bindIO emit
     print input get_inventory set_inventory save_inventory lift ret
     products stdin stdout disk] in H.
  repeat (match type of H with
          | context [match ?x with _ => _ end] =>
              lazymatch x with
              | context [match _ with _ => _ end] => fail
              | _ => destruct x eqn:?
              end
          end;
          cbv beta iota zeta delta [products stdin stdout disk] in H).
  all: injection H as <- <-; cbn [products disk].
  all: (split; [|split; [intros Hr; first [discriminate Hr | split; reflexivity]
                        | intros Hne; first [reflexivity | now contradiction Hne]]]).
  all: try (left; reflexivity).
  all: right.
  all: try (eexists (Add _ _ _ _); reflexivity).
  all: try (eexists (Remove _); reflexivity).
  all: match goal with
       | E : update_product ?k ?f ?v _ = (_, _) |- _ =>
           exists (Update k f v); cbn [perform]; now rewrite E
       end.
Qed.

Lemma session_effect (fuel : nat) (w w' : World) (r : res unit) :
  session fuel w = Some (r, w') ->
  (exists ops, products w' = perform_all (products w) ops)
  /\ match r with
     | Ok _ => disk w' = save_data db_products (products w') (disk w)
     | Raise _ => disk w' = disk w
     end.
Proof.
  revert w. induction fuel as [|fuel IH]; intros w; [discriminate|].
  cbn [session]. destruct (turn w) as [[[|]|e] w1] eqn:E.
  - intros [= <- <-].
    destruct (turn_effect w w1 (Ok true) E) as (_ & Hexit & _).
    destruct (Hexit eq_refl) as [Hp Hd]. split.
    + exists []. exact Hp.
    + now rewrite Hp.
  - intros H. destruct (IH w1 H) as [(ops & Hops) Hdisk].
    destruct (turn_effect w w1 (Ok false) E) as (Hstep & _ & Hsame).
    rewrite (Hsame ltac:(discriminate)) in Hdisk. split; [|exact Hdisk].
    destruct Hstep as [Hp|(o & Hp)]; rewrite Hp in Hops.
    + now exists ops.
    + now exists (o :: ops).
  - intros [= <- <-].
    destruct (turn_effect w w1 (Raise e) E) as (Hstep & _ & Hsame).
    split; [|apply Hsame; discriminate].
    destruct Hstep as [Hp|(o & Hp)].
    + exists []. exact Hp.
    + now exists [o].
Qed.

(** What a turn does to the products: nothing, or one operation, an
    update or a remove only on an id that some product has. *)
Lemma turn_step (w w' : World) (r : res bool) :
  turn w = (r, w') ->
  products w' = products w
  \/ exists o, on_present_id (products w) o
               /\ products w' = perform (products w) o.
Proof.
  destruct w as [inv sin out fs]. intros H. cbn [products].
  cbv beta iota zeta delta
    [turn display_products action_add action_view action_update
     action_delete action_exit not_found try_ValueError bindIO emit
     print input get_inventory set_inventory save_inventory lift ret
     products stdin stdout disk] in H.
  repeat (match type of H with
          | context [match ?x with _ => _ end] =>
              lazymatch x with
              | context [match _ with _ => _ end] => fail
              | _ => destruct x eqn:?
              end
          end;
          cbv beta iota zeta delta [products stdin stdout disk] in H).
  all: injection H as <- <-; cbn [products].
  all: try (left; reflexivity).
  all: right.
  all: try (eexists (Add _ _ _ _); split; [exact I | reflexivity]).
  all: match goal with
       | G : get_product_by_id _ ?k = Some _ |- _ =>
           first
             [ exists (Remove k); split;
               [exact (get_product_by_id_Some_In _ _ _ G) | reflexivity]
             | match goal with
               | E : update_product k ?f ?v _ = (_, _) |- _ =>
                   exists (Update k f v); split;
                   [exact (get_product_by_id_Some_In _ _ _ G)
                   | cbn [perform]; now rewrite E]
               end ]
       end.
Qed.

Lemma last_cons {A : Type} (l : list A) (a d : A) :
  last (a :: l) d = last l a.
Proof.
  revert a d. induction l as [|b l IH]; intros a d; [reflexivity|].
  change (last (a :: b :: l) d) with (last (b :: l) d).
  now rewrite !IH.
Qed.

Lemma session_one_at_a_time (fuel : nat) (w w' : World) (r : res unit) :
  session fuel w = Some (r, w') ->
  one_at_a_time (products w) (after_turns fuel w)
  /\ products w' = last (after_turns fuel w) (products w).
Proof.
  revert w. induction fuel as [|fuel IH]; intros w; [discriminate|].
  cbn [session after_turns]. destruct (turn w) as [[[|]|e] w1] eqn:E.
  - intros [= <- <-]. cbn [one_at_a_time last].
    split; [split; [exact (turn_step _ _ _ E) | exact I] | reflexivity].
  - intros H. destruct (IH w1 H) as [Hc Hl]. cbn [one_at_a_time].
    split; [split; [exact (turn_step _ _ _ E) | exact Hc]|].
    now rewrite last_cons.
  - intros [= <- <-]. cbn [one_at_a_time last].
    split; [split; [exact (turn_step _ _ _ E) | exact I] | reflexivity].
Qed.

Lemma one_at_a_time_operations (after : list Inventory) (inv : Inventory) :
  one_at_a_time inv after ->
  exists ops,
    (List.length ops <= List.length after)%nat
    /\ last after inv = perform_all inv ops.
Proof.
  revert inv. induction after as [|inv' rest IH]; intros inv.
  - intros _. exists []. split; [cbn; lia | reflexivity].
  - cbn [one_at_a_time]. intros [Hstep Hrest].
    destruct (IH inv' Hrest) as (ops & Hlen & Hlast).
    rewrite last_cons, Hlast. destruct Hstep as [->|(o & _ & ->)].
    + exists ops. split; [cbn [List.length]; lia | reflexivity].
    + exists (o :: ops). split; [cbn [List.length]; lia | reflexivity].
Qed.

(** X15. In a run of [main] every turn of the loop leaves the products
    as they were or performs one operation on them, an add with the next
    id, an update or a remove, the last two only on an id that some
    product has; nothing else changes the products.  So the products the
    run ends with are those after its last turn, and they are reached
    from what the load at startup left by at most as many operations as
    the loop made turns.  When the load raises, the run ends with what
    the load left. *)
Theorem main_performs_operations (fuel : nat) (lines : list string)
    (fs : files) (r : res unit) (w' : World) :
  main fuel lines fs = Some (r, w') ->
  match load_data fs db_products [] with
  | (Ok _, inv0) =>
      one_at_a_time inv0 (after_turns fuel (mkWorld inv0 lines [] fs))
      /\ products w' = last (after_turns fuel (mkWorld inv0 lines [] fs)) inv0
      /\ exists ops,
           (List.length ops
            <= List.length (after_turns fuel (mkWorld inv0 lines [] fs)))%nat
           /\ products w' = perform_all inv0 ops
  | (Raise _, inv0) => products w' = inv0
  end.
Proof.
  unfold main. destruct (load_data fs db_products []) as [[u|e] inv].
  - intros H. destruct (session_one_at_a_time fuel _ w' r H) as [Hc Hl].
    cbn [products] in Hc, Hl. split; [exact Hc|]. split; [exact Hl|].
    rewrite Hl. now apply one_at_a_time_operations.
  - now intros [= _ <-].
Qed.

(** X16. When the load at startup leaves the ids 1, ..., N in order, as
    it does without a file, the products a run of [main] ends with have
    the ids 1, ..., M in order, whatever was typed and however the run
    ends. *)
Theorem main_in_sequence (fuel : nat) (lines : list string) (fs : files)
    (r : res unit) (w' : World) :
  ids_in_sequence (snd (load_data fs db_products [])) ->
  main fuel lines fs = Some (r, w') ->
  ids_in_sequence (products w').
Proof.
  intros Hseq. unfold main.
  destruct (load_data fs db_products []) as [[u|e] inv]; cbn [snd] in Hseq.
  - intros H. destruct (session_effect fuel _ w' r H) as [(ops & Hops) _].
    cbn [products] in Hops. rewrite Hops.
    now apply perform_all_in_sequence.
  - now intros [= _ <-].
Qed.


End SessionFurther.

Section SessionBranches.

Context {F : PyFloat}.

Ltac run_turn :=
  cbv beta iota zeta delta
    [turn display_products action_add action_view action_update
     action_delete action_exit not_found try_ValueError bindIO emit
     print input get_inventory set_inventory save_inventory lift ret
     products stdin stdout disk].

Ltac start_turn w Hshow Hin Hact :=
  destruct w as [inv sin out fs];
  cbn [products stdin stdout disk] in *; subst sin;
  run_turn; rewrite Hshow; run_turn.

Ltac choose_action Hact :=
  rewrite Hact; cbn [String.eqb Ascii.eqb Bool.eqb]; run_turn.

(** X21. When the action read is view, update or delete and the id typed
    is a number that no product has, the turn reports that the product
    is not found and ends normally: the products and the files are as
    they were, and nothing more is read.  In the session a delete of an
    absent id renumbers nothing. *)
Theorem not_found_reported (w : World) (action line : string)
    (rest : list string) (k : Z) :
  get_products (products w) = Ok (products w) ->
  stdin w = action :: line :: rest ->
  lower action = "view" \/ lower action = "update" \/ lower action = "delete" ->
  int_of_str line = Some k ->
  ~ In k (ids (products w)) ->
  exists out,
    turn w
    = (Ok false,
       mkWorld (products w) rest
         (out ++ [Printed (nl ++ "Product not found.")]) (disk w)).
Proof.
  intros Hshow Hin Hact Hk Hno. start_turn w Hshow Hin Hact.
  apply get_product_by_id_absent in Hno.
  destruct Hact as [Hact|[Hact|Hact]]; choose_action Hact;
    unfold py_int; rewrite Hk; run_turn; rewrite Hno; run_turn;
    eexists; reflexivity.
Qed.

(** X22. In the update of the session, a new value that [float] rejects
    for the price, or that [int] rejects for the quantity, is caught by
    the handler of the id: the turn prints the message about the product
    id and ends normally, and the products and the files are as they
    were. *)
Theorem update_bad_value_reported (w : World)
    (action line field new_value : string) (rest : list string) (k : Z) :
  get_products (products w) = Ok (products w) ->
  stdin w = action :: line :: field :: new_value :: rest ->
  lower action = "update" ->
  int_of_str line = Some k ->
  In k (ids (products w)) ->
  (lower field = "price" /\ float_of_str new_value = None)
  \/ (lower field = "quantity" /\ int_of_str new_value = None) ->
  exists out,
    turn w
    = (Ok false,
       mkWorld (products w) rest
         (out ++ [Printed invalid_id_message]) (disk w)).
Proof.
  intros Hshow Hin Hact Hk Hhas Hbad. start_turn w Hshow Hin Hact.
  destruct (get_product_by_id_In inv k Hhas) as (p & Hget).
  choose_action Hact. unfold py_int. rewrite Hk. run_turn.
  rewrite Hget. run_turn. unfold update_product. rewrite Hget.
  destruct Hbad as [[Hf Hv]|[Hf Hv]]; rewrite Hf;
    cbn [String.eqb Ascii.eqb Bool.eqb]; rewrite Hv; run_turn;
    eexists; reflexivity.
Qed.

(** X23. When nothing fails, the add of the session appends one product:
    its id is [get_next_id] of the products, its name and description
    are the lines typed, as they are, its price and quantity the numbers
    read from the next two lines.  Nothing is written to the files. *)
Theorem add_appends (w : World) (action name desc price quantity : string)
    (rest : list string) (x : pyfloat) (n : Z) :
  get_products (products w) = Ok (products w) ->
  stdin w = action :: name :: desc :: price :: quantity :: rest ->
  lower action = "add" ->
  float_of_str price = Some x ->
  int_of_str quantity = Some n ->
  exists out,
    turn w
    = (Ok false,
       mkWorld
         (products w
          ++ [mkProduct (get_next_id (products w)) (Some name) (Some desc) x n])
         rest
         (out ++ [Printed (nl ++ "Product added successfully.")]) (disk w)).
Proof.
  intros Hshow Hin Hact Hx Hn. start_turn w Hshow Hin Hact.
  choose_action Hact. unfold py_float, py_int. rewrite Hx, Hn. run_turn.
  eexists; reflexivity.
Qed.

(** X24. When the action read is delete and the id typed is a number
    some product has, the turn leaves the products [remove_product]
    gives and ends normally; nothing is written to the files. *)
Theorem delete_removes (w : World) (action line : string)
    (rest : list string) (k : Z) :
  get_products (products w) = Ok (products w) ->
  stdin w = action :: line :: rest ->
  lower action = "delete" ->
  int_of_str line = Some k ->
  In k (ids (products w)) ->
  exists out,
    turn w
    = (Ok false,
       mkWorld (remove_product k (products w)) rest
         (out ++ [Printed (nl ++ "Product with ID " ++ str_of_int k
                           ++ " deleted successfully.")])
         (disk w)).
Proof.
  intros Hshow Hin Hact Hk Hhas. start_turn w Hshow Hin Hact.
  destruct (get_product_by_id_In inv k Hhas) as (p & Hget).
  choose_action Hact. unfold py_int. rewrite Hk. run_turn.
  rewrite Hget. run_turn. eexists; reflexivity.
Qed.

(** X25. When a product has no name or no description, the table cannot
    be shown: every turn ends with a [TypeError] after the header and
    the separator, before any line is read, and so does the session;
    the products and the files are as they were. *)
Theorem display_raises (w : World) (p : Product) :
  In p (products w) ->
  name p = None \/ desc p = None ->
  turn w
  = (Raise TypeError,
     mkWorld (products w) (stdin w)
       (stdout w ++ [Cleared] ++ [Printed table_header]
        ++ [Printed separator])
       (disk w))
  /\ forall fuel,
       exists w', session (S fuel) w = Some (Raise TypeError, w')
                  /\ stdin w' = stdin w /\ disk w' = disk w.
Proof.
  intros Hin Hnone.
  assert (Hshow : get_products (products w) = Raise TypeError).
  { unfold get_products.
    destruct (forallb (fun q => has_text (name q) && has_text (desc q))
                (products w)) eqn:E; [|reflexivity].
    rewrite forallb_forall in E. specialize (E p Hin).
    apply andb_true_iff in E. destruct E as [En Ed].
    destruct Hnone as [H|H]; rewrite H in *; discriminate. }
  assert (Hturn : turn w
                  = (Raise TypeError,
                     mkWorld (products w) (stdin w)
                       (stdout w ++ [Cleared] ++ [Printed table_header]
                        ++ [Printed separator])
                       (disk w))).
  { destruct w as [inv sin out fs]. cbn [products stdin stdout disk] in *.
    run_turn. rewrite Hshow. run_turn. now rewrite <- !app_assoc. }
  split; [exact Hturn|]. intros fuel. cbn [session]. rewrite Hturn.
  eexists. split; [reflexivity|]. split; reflexivity.
Qed.

(** X26. An action that is none of exit, add, view, update and delete,
    compared in lower case, is reported as invalid: the turn reads that
    one line and ends normally, and the products and the files are as
    they were. *)
Theorem invalid_action_reported (w : World) (action : string)
    (rest : list string) :
  get_products (products w) = Ok (products w) ->
  stdin w = action :: rest ->
  lower action <> "exit" -> lower action <> "add" ->
  lower action <> "view" -> lower action <> "update" ->
  lower action <> "delete" ->
  exists out,
    turn w
    = (Ok false,
       mkWorld (products w) rest
         (out ++ [Printed "Invalid action. Please try again."]) (disk w)).
Proof.
  intros Hshow Hin H1 H2 H3 H4 H5. start_turn w Hshow Hin H1.
  apply String.eqb_neq in H1, H2, H3, H4, H5.
  rewrite H1, H2, H3, H4, H5. run_turn. eexists; reflexivity.
Qed.


End SessionBranches.

Section NextSession.

Context {F : PyFloat} {L : PyFloatLaws F}.


End NextSession.

(** * Properties of the renderings *)

Lemma length_append (a b : string) :
  String.length (a ++ b) = (String.length a + String.length b)%nat.
Proof.
  induction a as [|c a IH]; [reflexivity|]. cbn [append String.length].
  now rewrite IH.
Qed.

Lemma length_replicate (n : nat) (c : ascii) :
  String.length (replicate n c) = n.
Proof. induction n as [|n IH]; cbn; [reflexivity | now rewrite IH]. Qed.

Lemma length_substring (m : nat) (s : string) :
  String.length (substring 0 m s) = Nat.min m (String.length s).
Proof.
  revert s. induction m as [|m IH]; intros s.
  - now destruct s.
  - destruct s as [|c s]; [reflexivity|]. cbn [substring String.length].
    now rewrite IH.
Qed.

Lemma length_ljust (n : nat) (s : string) :
  String.length (ljust n s) = Nat.max n (String.length s).
Proof. unfold ljust. rewrite length_append, length_replicate. lia. Qed.

Lemma length_truncated (n : nat) (s : string) :
  String.length (truncated n s)
  = if (String.length s <=? n)%nat then String.length s else (n + 3)%nat.
Proof.
  unfold truncated. destruct (Nat.leb_spec (String.length s) n) as [H|H].
  - reflexivity.
  - rewrite length_append, length_substring. cbn [String.length]. lia.
Qed.

Section RenderingFurther.

Context {F : PyFloat}.

Variable format_price : pyfloat -> string.



(** X28. The row of a product whose id takes at most 4 characters, whose
    price takes at most 14 and whose quantity at most 10, is as long as
    the header of the table, 85 characters, when the name has at most 13
    characters, and one character longer when the name is cut: the cut
    name and its dots take 16 characters in a column of 15.  The
    description never widens the row. *)
Theorem Product_str_length (p : Product) (n d : string) :
  name p = Some n -> desc p = Some d ->
  (String.length (str_of_int (id p)) <= 4)%nat ->
  (String.length (format_price (price p)) <= 14)%nat ->
  (String.length (str_of_int (quantity p)) <= 10)%nat ->
  exists row,
    Product_str format_price p = Ok row
    /\ String.length row
       = (if (String.length n <=? 13)%nat
          then String.length table_header
          else S (String.length table_header)).
Proof.
  intros Hn Hd Hid Hprice Hq. unfold Product_str. rewrite Hn, Hd.
  eexists. split; [reflexivity|].
  change (String.length table_header) with 85%nat.
  repeat rewrite ?length_append, ?length_ljust, ?length_truncated.
  cbn [String.length].
  destruct (Nat.leb_spec (String.length n) 13);
    destruct (Nat.leb_spec (String.length d) 23); lia.
Qed.

End RenderingFurther.

(** * Closed instances of the further properties *)

Lemma update_product_text_witness :
  In 2 (ids (Objects.contents shelf))
  /\ exists a l1 l2,
       Objects.get_product_by_id shelf 2 = Some a
       /\ Objects.products shelf = l1 ++ a :: l2
       /\ (forall b, In b l1 -> id (Objects.object shelf b) <> 2)
       /\ id (Objects.object shelf a) = 2
       /\ (exists s',
             Objects.update_product 2 "name" "Gizmo" shelf = (Ok tt, s')
             /\ assigned shelf s' a
                  (mkProduct 2 (Some "Gizmo") (desc (Objects.object shelf a))
                     (price (Objects.object shelf a))
                     (quantity (Objects.object shelf a))))
       /\ (exists s',
             Objects.update_product 2 "desc" "Gizmo" shelf = (Ok tt, s')
             /\ assigned shelf s' a
                  (mkProduct 2 (name (Objects.object shelf a)) (Some "Gizmo")
                     (price (Objects.object shelf a))
                     (quantity (Objects.object shelf a)))).
Proof.
  split; [exact shelf_has_2|].
  apply (@update_product_text WholeFloat shelf 2 "Gizmo").
  exact shelf_has_2.
Defined.

(** On a list that holds the same object twice the loop of
    [remove_product] assigns to that object twice: after
    [add_product(p)] twice and the removal of an id no product has, both
    places show the id 2, where two objects would show 1 and 2. *)
Example remove_product_shared :
  ids (Objects.contents gadget_twice) = [2; 2]
  /\ ids (Objects.contents (Objects.remove_product 99 gadget_twice)) = [2; 2]
  /\ ids (remove_product 99 [gadget; gadget]) = [1; 2].
Proof. repeat split. Qed.

(** An update through one place of such a list shows at the other. *)
Example update_product_shared :
  option_map (fun p => price p)
    (nth_error
       (Objects.contents
          (snd (Objects.update_product 2 "price" "19.0" gadget_twice))) 1)
  = Some 19.
Proof. reflexivity. Qed.

Lemma remove_product_shifts_witness :
  ids_in_sequence [widget; gadget]
  /\ 1 <= 1 <= Z.of_nat (List.length [widget; gadget])
  /\ get_product_by_id (remove_product 1 [widget; gadget]) 1
     = if (1 <=? 1) && (1 <? Z.of_nat (List.length [widget; gadget]))
       then option_map (set_id 1)
              (get_product_by_id [widget; gadget]
                 (if 1 <? 1 then 1 else 1 + 1))
       else None.
Proof.
  split; [reflexivity|]. split; [cbn; lia|].
  apply (@remove_product_shifts WholeFloat [widget; gadget] 1 1).
  - reflexivity.
  - cbn; lia.
Defined.

Lemma load_data_no_carriage_return_witness :
  In with_lf
    (snd (load_data (save_data db_products [with_cr] no_files) db_products []))
  /\ (name with_lf = Some (String "a" (String ch_lf "b"))
      \/ desc with_lf = Some (String "a" (String ch_lf "b")))
  /\ has_cr (String "a" (String ch_lf "b")) = false.
Proof.
  split; [left; reflexivity|]. split; [left; reflexivity|].
  apply (@load_data_no_carriage_return WholeFloat
           (save_data db_products [with_cr] no_files) db_products with_lf).
  - left; reflexivity.
  - left; reflexivity.
Defined.

Lemma main_performs_operations_witness :
  main 2 add_and_exit no_files = Some (Ok tt, after_add_and_exit)
  /\ match load_data no_files db_products [] with
     | (Ok _, inv0) =>
         one_at_a_time inv0
           (after_turns 2 (mkWorld inv0 add_and_exit [] no_files))
         /\ products after_add_and_exit
            = last (after_turns 2 (mkWorld inv0 add_and_exit [] no_files)) inv0
         /\ exists ops,
              (List.length ops
               <= List.length
                    (after_turns 2 (mkWorld inv0 add_and_exit [] no_files)))%nat
              /\ products after_add_and_exit = perform_all inv0 ops
     | (Raise _, inv0) => products after_add_and_exit = inv0
     end.
Proof.
  split; [reflexivity|].
  apply (@main_performs_operations WholeFloat 2 add_and_exit no_files (Ok tt)
           after_add_and_exit).
  reflexivity.
Defined.

(** The products after the two turns of that run: the add, then the
    exit. *)
Example after_turns_add_and_exit :
  after_turns 2 (@mkWorld WholeFloat [] add_and_exit [] no_files)
  = [[widget]; [widget]].
Proof. reflexivity. Qed.

Lemma main_in_sequence_witness :
  ids_in_sequence (snd (@load_data WholeFloat no_files db_products []))
  /\ main 2 add_and_exit no_files = Some (Ok tt, after_add_and_exit)
  /\ ids_in_sequence (products after_add_and_exit).
Proof.
  split; [reflexivity|]. split; [reflexivity|].
  apply (@main_in_sequence WholeFloat 2 add_and_exit no_files (Ok tt)
           after_add_and_exit); reflexivity.
Defined.



Lemma bad_id_reported_witness :
  get_products (products (before ["view"; "abc"]))
  = Ok (products (before ["view"; "abc"]))
  /\ stdin (before ["view"; "abc"]) = ["view"; "abc"]
  /\ (lower "view" = "view" \/ lower "view" = "update"
      \/ lower "view" = "delete")
  /\ int_of_str "abc" = None
  /\ exists out,
       turn (before ["view"; "abc"])
       = (Ok false,
          mkWorld (products (before ["view"; "abc"])) []
            (out ++ [Printed invalid_id_message])
            (disk (before ["view"; "abc"]))).
Proof.
  split; [reflexivity|]. split; [reflexivity|]. split; [now left|].
  split; [reflexivity|].
  apply (@bad_id_reported WholeFloat (before ["view"; "abc"]) "view" "abc" []);
    [reflexivity | reflexivity | now left | reflexivity].
Defined.

Lemma gadget_widget_no_7 : ~ In 7 (ids [widget; gadget]).
Proof. intros [H|[H|[]]]; discriminate H. Defined.

Lemma not_found_reported_witness :
  get_products (products (before ["Delete"; "7"]))
  = Ok (products (before ["Delete"; "7"]))
  /\ stdin (before ["Delete"; "7"]) = ["Delete"; "7"]
  /\ (lower "Delete" = "view" \/ lower "Delete" = "update"
      \/ lower "Delete" = "delete")
  /\ int_of_str "7" = Some 7
  /\ exists out,
       turn (before ["Delete"; "7"])
       = (Ok false,
          mkWorld (products (before ["Delete"; "7"])) []
            (out ++ [Printed (nl ++ "Product not found.")])
            (disk (before ["Delete"; "7"]))).
Proof.
  split; [reflexivity|]. split; [reflexivity|].
  split; [right; right; reflexivity|]. split; [reflexivity|].
  apply (@not_found_reported WholeFloat (before ["Delete"; "7"]) "Delete" "7"
           [] 7);
    [reflexivity | reflexivity | right; right; reflexivity | reflexivity
    | exact gadget_widget_no_7].
Defined.

Lemma update_bad_value_reported_witness :
  get_products (products (before ["update"; "2"; "Price"; "cheap"]))
  = Ok (products (before ["update"; "2"; "Price"; "cheap"]))
  /\ int_of_str "2" = Some 2
  /\ In 2 (ids (products (before ["update"; "2"; "Price"; "cheap"])))
  /\ lower "Price" = "price"
  /\ @float_of_str WholeFloat "cheap" = None
  /\ exists out,
       turn (before ["update"; "2"; "Price"; "cheap"])
       = (Ok false,
          mkWorld (products (before ["update"; "2"; "Price"; "cheap"])) []
            (out ++ [Printed invalid_id_message])
            (disk (before ["update"; "2"; "Price"; "cheap"]))).
Proof.
  split; [reflexivity|]. split; [reflexivity|]. split; [right; now left|].
  split; [reflexivity|]. split; [reflexivity|].
  apply (@update_bad_value_reported WholeFloat
           (before ["update"; "2"; "Price"; "cheap"]) "update" "2" "Price"
           "cheap" [] 2);
    [reflexivity | reflexivity | reflexivity | reflexivity | right; now left
    | left; split; reflexivity].
Defined.

Lemma add_appends_witness :
  @float_of_str WholeFloat "30.0" = Some 30
  /\ int_of_str "4" = Some 4
  /\ exists out,
       turn (before ["add"; "Gizmo"; "A gizmo"; "30.0"; "4"])
       = (Ok false,
          mkWorld
            ([widget; gadget]
             ++ [@mkProduct WholeFloat (get_next_id [widget; gadget])
                   (Some "Gizmo") (Some "A gizmo") 30 4])
            []
            (out ++ [Printed (nl ++ "Product added successfully.")])
            no_files).
Proof.
  split; [reflexivity|]. split; [reflexivity|].
  apply (@add_appends WholeFloat
           (before ["add"; "Gizmo"; "A gizmo"; "30.0"; "4"])
           "add" "Gizmo" "A gizmo" "30.0" "4" [] 30 4); reflexivity.
Defined.

Lemma delete_removes_witness :
  int_of_str "1" = Some 1
  /\ In 1 (ids [widget; gadget])
  /\ exists out,
       turn (before ["delete"; "1"])
       = (Ok false,
          mkWorld (remove_product 1 [widget; gadget]) []
            (out ++ [Printed (nl ++ "Product with ID " ++ str_of_int 1
                              ++ " deleted successfully.")])
            no_files).
Proof.
  split; [reflexivity|]. split; [now left|].
  apply (@delete_removes WholeFloat (before ["delete"; "1"]) "delete" "1" [] 1);
    [reflexivity | reflexivity | reflexivity | reflexivity | now left].
Defined.

Lemma display_raises_witness :
  In nameless [nameless]
  /\ (name nameless = None \/ desc nameless = None)
  /\ turn (mkWorld [nameless] ["exit"] [] no_files)
     = (Raise TypeError,
        mkWorld [nameless] ["exit"]
          ([] ++ [Cleared] ++ [Printed table_header] ++ [Printed separator])
          no_files)
  /\ forall fuel,
       exists w',
         session (S fuel) (mkWorld [nameless] ["exit"] [] no_files)
         = Some (Raise TypeError, w')
         /\ stdin w' = ["exit"] /\ disk w' = no_files.
Proof.
  split; [now left|]. split; [now left|].
  apply (@display_raises WholeFloat (mkWorld [nameless] ["exit"] [] no_files)
           nameless); now left.
Defined.

Lemma invalid_action_reported_witness :
  lower "Quit" <> "exit"
  /\ exists out,
       turn (before ["Quit"])
       = (Ok false,
          mkWorld [widget; gadget] []
            (out ++ [Printed "Invalid action. Please try again."]) no_files).
Proof.
  split; [discriminate|].
  apply (@invalid_action_reported WholeFloat (before ["Quit"]) "Quit" []);
    [reflexivity | reflexivity | discriminate ..].
Defined.

Lemma Product_str_length_witness :
  name widget = Some "Widget"
  /\ (String.length (str_of_int (id widget)) <= 4)%nat
  /\ (String.length (whole_format (price widget)) <= 14)%nat
  /\ (String.length (str_of_int (quantity widget)) <= 10)%nat
  /\ exists row,
       @Product_str WholeFloat whole_format widget = Ok row
       /\ String.length row
          = (if (String.length "Widget" <=? 13)%nat
             then String.length table_header
             else S (String.length table_header)).
Proof.
  split; [reflexivity|].
  split; [vm_compute; lia|]. split; [vm_compute; lia|].
  split; [vm_compute; lia|].
  apply (@Product_str_length WholeFloat whole_format widget "Widget"
           "A small widget");
    [reflexivity | reflexivity | vm_compute; lia ..].
Defined.
